(** * Research agent: orchestration core and transcript capture

    Shallow embedding of the research agent's result reducers, checkpoint
    store, HITL controller, search fallback chain and circuit breaker, and of
    the browser extension's transcript parser and transcript cache
    ([youtube-transcript.ts]). *)

From Stdlib Require Import String Ascii List ZArith Lia Floats Sorting.Permutation Sorting.Sorted.
From stdpp Require Import base gmap strings.
Import ListNotations.
Open Scope Z_scope.

(* ------------------------------------------------------------------ *)
(** ** Timestamps *)

Module Time.

(** A naive Python [datetime]. *)
Record DateTime := mkDateTime {
  year : Z; month : Z; day : Z;
  hour : Z; minute : Z; second : Z; microsecond : Z
}.

(** Python orders datetimes field by field; on datetimes whose fields are in
    range this is the order of the following key. *)
Definition dt_key (t : DateTime) : Z :=
  ((((((year t * 100 + month t) * 100 + day t) * 100 + hour t) * 100
     + minute t) * 100 + second t) * 1000000 + microsecond t).

End Time.

(* ------------------------------------------------------------------ *)
(** ** Result merger (reducers over research data) *)

Module ResultMerger.
Import Time.

(** A [ResearchData] record.  Relevance scores are kept as integers (a
    relevance of 0.6 is written 60). *)
Record ResearchData := mkResearchData {
  source_id : string;
  content : string;
  relevance_score : Z;
  worker_id : string;
  collected_at : DateTime
}.

(** Modelled from the spec: [research_data_reducer] of
    [research_agent.models.state] (not in the sources).  Two versions of one
    source_id merge to the record with the most recent collection timestamp
    (on equal timestamps the later version wins), carrying the maximum
    relevance score of both. *)
Definition merge_versions (kept incoming : ResearchData) : ResearchData :=
  let newest :=
    if Z.leb (dt_key (collected_at kept)) (dt_key (collected_at incoming))
    then incoming else kept in
  {| source_id := source_id newest;
     content := content newest;
     relevance_score := Z.max (relevance_score kept) (relevance_score incoming);
     worker_id := worker_id newest;
     collected_at := collected_at newest |}.

(** Grouping by source_id, as a dict filled in insertion order: an incoming
    record is merged into the entry of its source_id, or appended. *)
Fixpoint upsert (acc : list ResearchData) (d : ResearchData) : list ResearchData :=
  match acc with
  | [] => [d]
  | x :: rest =>
      if String.eqb (source_id x) (source_id d)
      then merge_versions x d :: rest
      else x :: upsert rest d
  end.

Definition group_by_source (l : list ResearchData) : list ResearchData :=
  fold_left upsert l [].

(** Stable sort by collection timestamp, oldest first: each record is
    inserted after every record with a timestamp not larger than its own. *)
Fixpoint insert_by_time (d : ResearchData) (l : list ResearchData) : list ResearchData :=
  match l with
  | [] => [d]
  | x :: rest =>
      if Z.ltb (dt_key (collected_at d)) (dt_key (collected_at x))
      then d :: x :: rest
      else x :: insert_by_time d rest
  end.

Definition sort_by_time (l : list ResearchData) : list ResearchData :=
  fold_left (fun acc d => insert_by_time d acc) l [].

(** Modelled from the spec: [research_data_reducer(existing, incoming)]. *)
Definition research_data_reducer (existing incoming : list ResearchData)
  : list ResearchData :=
  sort_by_time (group_by_source (existing ++ incoming)).

(** The entry of a source_id in a grouped list. *)
Fixpoint lookup_source (l : list ResearchData) (s : string) : option ResearchData :=
  match l with
  | [] => None
  | x :: rest => if String.eqb (source_id x) s then Some x else lookup_source rest s
  end.

(** The merge of every version of [s] seen so far, folded record by record. *)
Definition merge_into (o : option ResearchData) (d : ResearchData) : ResearchData :=
  match o with None => d | Some r => merge_versions r d end.

Definition step_source (s : string) (o : option ResearchData) (d : ResearchData)
  : option ResearchData :=
  if String.eqb (source_id d) s then Some (merge_into o d) else o.

Definition oplus (o1 o2 : option ResearchData) : option ResearchData :=
  match o1, o2 with
  | None, o | o, None => o
  | Some a, Some b => Some (merge_versions a b)
  end.

(** A [Source] entry of the source map. *)
Record Source := mkSource {
  url : string;
  title : string;
  first_seen : DateTime;
  contributors : list string
}.

(** Modelled from the spec: [source_map_reducer] of
    [research_agent.models.state] (not in the sources).  Contributor sets are
    merged as sets (a worker already listed is not added again); the earlier
    first-seen timestamp is kept. *)
Definition union_workers (old new : list string) : list string :=
  fold_left (fun acc w => if existsb (String.eqb w) acc then acc else acc ++ [w]) new old.

Definition earliest (a b : DateTime) : DateTime :=
  if Z.leb (dt_key a) (dt_key b) then a else b.

Definition merge_source (old new : Source) : Source :=
  {| url := url old;
     title := title old;
     first_seen := earliest (first_seen old) (first_seen new);
     contributors := union_workers (contributors old) (contributors new) |}.

Definition source_map_reducer (existing incoming : gmap string Source)
  : gmap string Source :=
  union_with (fun old new => Some (merge_source old new)) existing incoming.

End ResultMerger.

(* ------------------------------------------------------------------ *)
(** ** Research thread state and its serialization *)

Module Json.
Local Set Warnings "-register-all".

(** The transport-neutral structured form produced by
    [model_dump(mode="json")]. *)
Inductive json :=
| JNull
| JBool (b : bool)
| JInt (z : Z)
| JStr (s : string)
| JArr (l : list json)
| JObj (fields : list (string * json)).

Fixpoint get_field (k : string) (fields : list (string * json)) : option json :=
  match fields with
  | [] => None
  | (k', v) :: rest => if String.eqb k k' then Some v else get_field k rest
  end.

Fixpoint map_option {A B} (f : A -> option B) (l : list A) : option (list B) :=
  match l with
  | [] => Some []
  | x :: rest =>
      match f x, map_option f rest with
      | Some y, Some ys => Some (y :: ys)
      | _, _ => None
      end
  end.

End Json.

Module State.
Import Time Json ResultMerger.

Record Task := mkTask { query : string }.
Record Perspective := mkPerspective { name : string; description : string }.
Record Plan := mkPlan { steps : list string }.
Record DraftSection := mkDraftSection { section_title : string; section_content : string }.

(** A visit of a workflow node, as recorded by [StateHelpers.add_visit]. *)
Record VisitHistory := mkVisitHistory {
  node : string;
  visited_at : DateTime;
  visit_metadata : list (string * json)
}.

(** [ResearchState] (the spec's ResearchThreadState). *)
Record ResearchThreadState := mkState {
  task : Task;
  perspectives : list Perspective;
  plan : option Plan;
  research_data : list ResearchData;
  source_map : gmap string Source;
  draft_sections : list DraftSection;
  final_report : option string;
  critique : option string;
  revision_count : Z;
  visit_history : list VisitHistory;
  awaiting_approval : bool;
  user_feedback : option string;
  error : option string
}.

End State.

Module Serialization.
Import Time Json ResultMerger State.
Local Open Scope stdpp_scope.

(** *** ISO 8601 rendering of datetimes ([datetime.isoformat]) *)

Definition digit_char (d : Z) : Ascii.ascii := Ascii.ascii_of_nat (48 + Z.to_nat d).

(** [%0wd]: the [w] low decimal digits of [n], most significant first. *)
Fixpoint render_fixed (w : nat) (n : Z) : string :=
  match w with
  | O => EmptyString
  | S w' => String (digit_char (n / 10 ^ Z.of_nat w'))
                   (render_fixed w' (n mod 10 ^ Z.of_nat w'))
  end.

Definition char_digit (c : Ascii.ascii) : option Z :=
  let k := Ascii.nat_of_ascii c in
  if andb (Nat.leb 48 k) (Nat.leb k 57) then Some (Z.of_nat k - 48) else None.

(** Reads exactly [w] decimal digits. *)
Fixpoint parse_fixed (w : nat) (acc : Z) (s : string) : option (Z * string) :=
  match w with
  | O => Some (acc, s)
  | S w' =>
      match s with
      | EmptyString => None
      | String c rest =>
          match char_digit c with
          | None => None
          | Some d => parse_fixed w' (acc * 10 + d) rest
          end
      end
  end.

Definition expect (c : Ascii.ascii) (s : string) : option string :=
  match s with
  | String c' rest => if Ascii.eqb c c' then Some rest else None
  | EmptyString => None
  end.

(** [YYYY-MM-DDTHH:MM:SS], followed by [.ffffff] when the microseconds are
    not zero. *)
Definition isoformat (t : DateTime) : string :=
  render_fixed 4 (year t) +:+ "-" +:+ render_fixed 2 (month t) +:+ "-" +:+
  render_fixed 2 (day t) +:+ "T" +:+ render_fixed 2 (hour t) +:+ ":" +:+
  render_fixed 2 (minute t) +:+ ":" +:+ render_fixed 2 (second t) +:+
  (if Z.eqb (microsecond t) 0 then EmptyString
   else "." +:+ render_fixed 6 (microsecond t)).

Definition fromisoformat (s : string) : option DateTime :=
  '(y, s) ← parse_fixed 4 0 s; s ← expect "-"%char s;
  '(mo, s) ← parse_fixed 2 0 s; s ← expect "-"%char s;
  '(d, s) ← parse_fixed 2 0 s; s ← expect "T"%char s;
  '(h, s) ← parse_fixed 2 0 s; s ← expect ":"%char s;
  '(mi, s) ← parse_fixed 2 0 s; s ← expect ":"%char s;
  '(sec, s) ← parse_fixed 2 0 s;
  match s with
  | EmptyString => Some (mkDateTime y mo d h mi sec 0)
  | String c rest =>
      if Ascii.eqb c "."%char then
        '(us, r) ← parse_fixed 6 0 rest;
        match r with
        | EmptyString => Some (mkDateTime y mo d h mi sec us)
        | _ => None
        end
      else None
  end.

(** The field ranges of a Python [datetime]. *)
Definition valid_datetime (t : DateTime) : Prop :=
  1 <= year t <= 9999 /\ 1 <= month t <= 12 /\ 1 <= day t <= 31 /\
  0 <= hour t <= 23 /\ 0 <= minute t <= 59 /\ 0 <= second t <= 59 /\
  0 <= microsecond t <= 999999.

End Serialization.

Module StateJson.
Import Time Json ResultMerger State Serialization.
Local Open Scope stdpp_scope.

(** Modelled from the spec: [serialize_state] and [deserialize_state] of
    [research_agent.state_utils] (not in the sources).  Every model is dumped
    to a JSON object of its fields ([model_dump(mode="json")]); datetimes
    become ISO strings; absent optional values become null. *)
Definition ser_dt (t : DateTime) : json := JStr (isoformat t).
Definition des_dt (j : json) : option DateTime :=
  match j with JStr s => fromisoformat s | _ => None end.

Definition des_str (j : json) : option string :=
  match j with JStr s => Some s | _ => None end.
Definition des_int (j : json) : option Z :=
  match j with JInt z => Some z | _ => None end.
Definition des_bool (j : json) : option bool :=
  match j with JBool b => Some b | _ => None end.
Definition des_obj (j : json) : option (list (string * json)) :=
  match j with JObj fs => Some fs | _ => None end.

Definition ser_opt {A} (f : A -> json) (o : option A) : json :=
  match o with None => JNull | Some x => f x end.
Definition des_opt {A} (f : json -> option A) (j : json) : option (option A) :=
  match j with JNull => Some None | _ => option_map Some (f j) end.

Definition ser_list {A} (f : A -> json) (l : list A) : json := JArr (map f l).
Definition des_list {A} (f : json -> option A) (j : json) : option (list A) :=
  match j with JArr l => map_option f l | _ => None end.

(** Reads field [k] of an object and decodes it. *)
Definition field {A} (k : string) (f : json -> option A) (fs : list (string * json))
  : option A :=
  get_field k fs ≫= f.

Definition ser_task (t : Task) : json := JObj [("query", JStr (query t))].
Definition des_task (j : json) : option Task :=
  fs ← des_obj j; q ← field "query" des_str fs; Some (mkTask q).

Definition ser_perspective (p : Perspective) : json :=
  JObj [("name", JStr (name p)); ("description", JStr (description p))].
Definition des_perspective (j : json) : option Perspective :=
  fs ← des_obj j; n ← field "name" des_str fs; d ← field "description" des_str fs;
  Some (mkPerspective n d).

Definition ser_plan (p : Plan) : json := JObj [("steps", ser_list JStr (steps p))].
Definition des_plan (j : json) : option Plan :=
  fs ← des_obj j; st ← field "steps" (des_list des_str) fs; Some (mkPlan st).

Definition ser_section (d : DraftSection) : json :=
  JObj [("title", JStr (section_title d)); ("content", JStr (section_content d))].
Definition des_section (j : json) : option DraftSection :=
  fs ← des_obj j; t ← field "title" des_str fs; c ← field "content" des_str fs;
  Some (mkDraftSection t c).

Definition ser_research_data (d : ResearchData) : json :=
  JObj [("source_id", JStr (source_id d)); ("content", JStr (content d));
        ("relevance_score", JInt (relevance_score d)); ("worker_id", JStr (worker_id d));
        ("collected_at", ser_dt (collected_at d))].
Definition des_research_data (j : json) : option ResearchData :=
  fs ← des_obj j;
  sid ← field "source_id" des_str fs; c ← field "content" des_str fs;
  r ← field "relevance_score" des_int fs; w ← field "worker_id" des_str fs;
  t ← field "collected_at" des_dt fs;
  Some (mkResearchData sid c r w t).

Definition ser_source (s : Source) : json :=
  JObj [("url", JStr (url s)); ("title", JStr (title s));
        ("first_seen", ser_dt (first_seen s));
        ("contributors", ser_list JStr (contributors s))].
Definition des_source (j : json) : option Source :=
  fs ← des_obj j;
  u ← field "url" des_str fs; t ← field "title" des_str fs;
  f ← field "first_seen" des_dt fs; c ← field "contributors" (des_list des_str) fs;
  Some (mkSource u t f c).

Definition ser_source_map (m : gmap string Source) : json :=
  JObj (map (fun kv => (kv.1, ser_source kv.2)) (map_to_list m)).
Definition des_source_map (j : json) : option (gmap string Source) :=
  fs ← des_obj j;
  kvs ← map_option (fun kv => s ← des_source kv.2; Some (kv.1, s)) fs;
  Some (list_to_map kvs).

Definition ser_visit (v : VisitHistory) : json :=
  JObj [("node", JStr (node v)); ("timestamp", ser_dt (visited_at v));
        ("metadata", JObj (visit_metadata v))].
Definition des_visit (j : json) : option VisitHistory :=
  fs ← des_obj j;
  n ← field "node" des_str fs; t ← field "timestamp" des_dt fs;
  md ← field "metadata" des_obj fs;
  Some (mkVisitHistory n t md).

Definition serialize_state (st : ResearchThreadState) : json :=
  JObj [("task", ser_task (task st));
        ("perspectives", ser_list ser_perspective (perspectives st));
        ("plan", ser_opt ser_plan (plan st));
        ("research_data", ser_list ser_research_data (research_data st));
        ("source_map", ser_source_map (source_map st));
        ("draft_sections", ser_list ser_section (draft_sections st));
        ("final_report", ser_opt JStr (final_report st));
        ("critique", ser_opt JStr (critique st));
        ("revision_count", JInt (revision_count st));
        ("visit_history", ser_list ser_visit (visit_history st));
        ("awaiting_approval", JBool (awaiting_approval st));
        ("user_feedback", ser_opt JStr (user_feedback st));
        ("error", ser_opt JStr (error st))].

Definition deserialize_state (j : json) : option ResearchThreadState :=
  fs ← des_obj j;
  t ← field "task" des_task fs;
  ps ← field "perspectives" (des_list des_perspective) fs;
  pl ← field "plan" (des_opt des_plan) fs;
  rd ← field "research_data" (des_list des_research_data) fs;
  sm ← field "source_map" des_source_map fs;
  ds ← field "draft_sections" (des_list des_section) fs;
  fr ← field "final_report" (des_opt des_str) fs;
  cr ← field "critique" (des_opt des_str) fs;
  rc ← field "revision_count" des_int fs;
  vh ← field "visit_history" (des_list des_visit) fs;
  aw ← field "awaiting_approval" des_bool fs;
  uf ← field "user_feedback" (des_opt des_str) fs;
  er ← field "error" (des_opt des_str) fs;
  Some (mkState t ps pl rd sm ds fr cr rc vh aw uf er).

(** Every datetime held by a state is a valid Python datetime. *)
Definition state_datetimes_valid (st : ResearchThreadState) : Prop :=
  Forall (fun d => valid_datetime (collected_at d)) (research_data st) /\
  map_Forall (fun _ s => valid_datetime (first_seen s)) (source_map st) /\
  Forall (fun v => valid_datetime (visited_at v)) (visit_history st).

(** A state exercising every field, used as a concrete instance. *)
Definition sample_time : DateTime := mkDateTime 2025 12 11 9 5 3 4200.
Definition sample_state : ResearchThreadState :=
  mkState (mkTask "q") [mkPerspective "p" "d"] (Some (mkPlan ["s1"]))
    [mkResearchData "src_1" "c" 60 "w1" sample_time]
    (<["src_1" := mkSource "u" "T" sample_time ["w1"]]> ∅)
    [mkDraftSection "h" "b"] None (Some "ok") 1
    [mkVisitHistory "research" sample_time []] true None None.

End StateJson.

Module CheckpointStore.
Import Time ResultMerger State.

(** Modelled from the spec: the [CheckpointStore] of [research_agent.persistence]
    (not in the sources).  A checkpoint records its thread, an id drawn from
    the store's own sequence, an optional parent id, the state snapshot and
    the node label taken from the save metadata. *)
Record Checkpoint := mkCheckpoint {
  thread_id : string;
  checkpoint_id : nat;
  parent_checkpoint_id : option nat;
  cp_state : ResearchThreadState;
  cp_node : string
}.

(** The durable table: rows in insertion order and the next sequence value. *)
Record Store := mkStore { checkpoints : list Checkpoint; next_seq : nat }.

Definition empty_store : Store := mkStore [] 0.

(** [save]: one new row, with a fresh id; existing rows are left as they are. *)
Definition save (s : Store) (tid : string) (st : ResearchThreadState)
    (node : string) (parent : option nat) : Checkpoint * Store :=
  let cp := mkCheckpoint tid (next_seq s) parent st node in
  (cp, mkStore (checkpoints s ++ [cp]) (S (next_seq s))).

(** [get tid None]: the row of the thread with the greatest id
    (ORDER BY checkpoint_id DESC LIMIT 1). *)
Definition newest (tid : string) (cps : list Checkpoint) : option Checkpoint :=
  fold_left (fun acc c =>
    if String.eqb (thread_id c) tid then
      match acc with
      | None => Some c
      | Some b => if Nat.ltb (checkpoint_id b) (checkpoint_id c) then Some c else Some b
      end
    else acc) cps None.

(** [get tid (Some id)]: point lookup by (thread_id, checkpoint_id). *)
Definition get (s : Store) (tid : string) (cid : option nat) : option Checkpoint :=
  match cid with
  | None => newest tid (checkpoints s)
  | Some i => List.find (fun c => String.eqb (thread_id c) tid &&
                                  Nat.eqb (checkpoint_id c) i) (checkpoints s)
  end.

(** A save request: thread, state, node label and advisory parent link. *)
Record SaveReq := mkSaveReq {
  req_thread : string;
  req_state : ResearchThreadState;
  req_node : string;
  req_parent : option nat
}.

Definition save_req (s : Store) (r : SaveReq) : Store :=
  snd (save s (req_thread r) (req_state r) (req_node r) (req_parent r)).

(** A sequence of saves, applied in order. *)
Definition run (rs : list SaveReq) (s : Store) : Store := fold_left save_req rs s.

(** Every stored id is below the next sequence value. *)
Definition ids_below (s : Store) : Prop :=
  Forall (fun c => (checkpoint_id c < next_seq s)%nat) (checkpoints s).

End CheckpointStore.

Module HITL.
Import Time ResultMerger State CheckpointStore.
Local Open Scope stdpp_scope.

(** Modelled from the spec: [HITLController] (not in the sources). *)
Definition save_checkpoint_with_approval (s : Store) (tid : string)
    (st : ResearchThreadState) (node : string) : Checkpoint * Store :=
  let st' := mkState (task st) (perspectives st) (plan st) (research_data st)
               (source_map st) (draft_sections st) (final_report st) (critique st)
               (revision_count st) (visit_history st) true (user_feedback st) (error st) in
  save s tid st' node None.

(** [inject_approval]: load the latest checkpoint, clear [awaiting_approval],
    record the feedback and save a new checkpoint whose parent is the old one. *)
Definition inject_approval (s : Store) (tid : string) (approved : bool)
    (feedback : option string) : option (ResearchThreadState * Store) :=
  cp ← get s tid None;
  let st := cp_state cp in
  let st' := mkState (task st) (perspectives st) (plan st) (research_data st)
               (source_map st) (draft_sections st) (final_report st) (critique st)
               (revision_count st) (visit_history st) false feedback (error st) in
  Some (st', snd (save s tid st' (cp_node cp) (Some (checkpoint_id cp)))).

(** [can_resume]: the checks in the order the spec lists them. *)
Definition can_resume (s : Store) (tid : string) (max_revisions : Z) : bool * string :=
  match get s tid None with
  | None => (false, "No checkpoint found")
  | Some cp =>
      let st := cp_state cp in
      if awaiting_approval st then (false, "Awaiting approval")
      else if Z.leb max_revisions (revision_count st) then (false, "Maximum revisions reached")
      else match error st with
           | Some _ => (false, "Error in state")
           | None => (true, "Ready to resume")
           end
  end.

(** A thread state carrying an error message, with no revision made yet. *)
Definition errored_state : ResearchThreadState :=
  mkState (mkTask "q") [] None [] ∅ [] None None 0 [] false None (Some "search failed").

End HITL.

Module Breaker.
Local Open Scope stdpp_scope.

(** Modelled from the spec: [CircuitBreaker] of [research_agent.clients.search]
    (not in the sources).  Each target is [Closed] with its count of
    consecutive failures, [Open] since a time, or [HalfOpen] with a flag
    telling whether its one trial call has been handed out. *)
Inductive BreakerState :=
| Closed (failures : nat)
| Open (opened_at : Z)
| HalfOpen (trial_taken : bool).

Record BreakerConfig := mkBreakerConfig {
  failure_threshold : nat;
  recovery_timeout : Z
}.

(** [admit_call] (the spec's [admit]): whether a call may go out now, and the state after the decision. *)
Definition admit_call (cfg : BreakerConfig) (now : Z) (st : BreakerState) : bool * BreakerState :=
  match st with
  | Closed n => (true, Closed n)
  | Open t =>
      if Z.leb (t + recovery_timeout cfg) now then (true, HalfOpen true) else (false, Open t)
  | HalfOpen taken => if taken then (false, HalfOpen true) else (true, HalfOpen true)
  end.

(** [record_outcome]: a success resets the count (and closes a half-open
    breaker); a failure counts, and the breaker opens once the count exceeds
    the threshold; a failed trial reopens it. *)
Definition record_outcome (cfg : BreakerConfig) (now : Z) (ok : bool)
    (st : BreakerState) : BreakerState :=
  match st with
  | Closed n =>
      if ok then Closed 0
      else if Nat.ltb (failure_threshold cfg) (S n) then Open now else Closed (S n)
  | Open t => Open t
  | HalfOpen _ => if ok then Closed 0 else Open now
  end.

(** The per-target registry; an unknown target is closed with no failures. *)
Abbreviation Registry := (gmap string BreakerState).

Definition state_of (reg : Registry) (target : string) : BreakerState :=
  default (Closed 0) (reg !! target).

Definition admit_target (cfg : BreakerConfig) (now : Z) (reg : Registry)
    (target : string) : bool * Registry :=
  let '(ok, st) := admit_call cfg now (state_of reg target) in (ok, <[target := st]> reg).

Definition record_target (cfg : BreakerConfig) (now : Z) (ok : bool) (reg : Registry)
    (target : string) : Registry :=
  <[target := record_outcome cfg now ok (state_of reg target)]> reg.

(** Events seen by one target's breaker, with their times. *)
Inductive Event :=
| EvAdmit (now : Z)
| EvOutcome (now : Z) (ok : bool).

Definition event_time (e : Event) : Z :=
  match e with EvAdmit t => t | EvOutcome t _ => t end.

(** Runs a sequence of events, collecting the answers of the admits. *)
Fixpoint run_events (cfg : BreakerConfig) (evs : list Event) (st : BreakerState)
    : list bool * BreakerState :=
  match evs with
  | [] => ([], st)
  | EvAdmit t :: evs' =>
      let '(ok, st1) := admit_call cfg t st in
      let '(oks, st2) := run_events cfg evs' st1 in (ok :: oks, st2)
  | EvOutcome t ok :: evs' => run_events cfg evs' (record_outcome cfg t ok st)
  end.

(** Consecutive failures recorded at the given times. *)
Definition record_failures (cfg : BreakerConfig) (ts : list Z) (st : BreakerState)
    : BreakerState :=
  fold_left (fun s t => record_outcome cfg t false s) ts st.

End Breaker.

Module Search.
Import Breaker.

(** Modelled from the spec: [SearchClient] (not in the sources). *)
Record SearchResult := mkSearchResult {
  result_url : string;
  result_title : string;
  result_content : string
}.

(** A provider: the domain its breaker is keyed on, and its outcome for a
    query once its retries are spent ([None]: it failed). *)
Record Provider := mkProvider {
  provider_domain : string;
  provider_call : string -> option (list SearchResult)
}.

Inductive SearchOutcome :=
| Found (results : list SearchResult)
| SearchUnavailable.

(** The fallbacks, tried in declared order. *)
Fixpoint try_fallbacks (ps : list Provider) (q : string) : SearchOutcome :=
  match ps with
  | [] => SearchUnavailable
  | p :: ps' =>
      match provider_call p q with
      | Some rs => Found rs
      | None => try_fallbacks ps' q
      end
  end.

(** [search]: the primary is gated by its breaker and its outcome recorded;
    when it is not admitted or fails, the fallbacks are tried. *)
Definition search (cfg : BreakerConfig) (now : Z) (reg : Registry)
    (primary : Provider) (fallbacks : list Provider) (q : string)
    : SearchOutcome * Registry :=
  let '(ok, reg1) := admit_target cfg now reg (provider_domain primary) in
  if ok then
    match provider_call primary q with
    | Some rs => (Found rs, record_target cfg now true reg1 (provider_domain primary))
    | None => (try_fallbacks fallbacks q,
               record_target cfg now false reg1 (provider_domain primary))
    end
  else (try_fallbacks fallbacks q, reg1).

(** What the primary yields for this call: nothing when its breaker refuses. *)
Definition primary_attempt (cfg : BreakerConfig) (now : Z) (reg : Registry)
    (primary : Provider) (q : string) : option (list SearchResult) :=
  if fst (admit_target cfg now reg (provider_domain primary))
  then provider_call primary q else None.

End Search.

Module Transcript.

(** [types.ts]: JavaScript numbers are IEEE doubles. *)
Record TranscriptSegment := mkTranscriptSegment {
  startTime : PrimFloat.float;
  endTime : PrimFloat.float;
  text : string
}.

Record TranscriptData := mkTranscriptData {
  videoId : string;
  segments : list TranscriptSegment;
  language : string
}.

(** How a JavaScript statement completes. *)
Inductive Completion (A : Type) :=
| Normal (a : A)
| Thrown (exn : string).
Arguments Normal {A} a.
Arguments Thrown {A} exn.

(** An [<entry>] element as [parseTimedtext] reads it: [getAttribute]
    gives [null] ([None]) for a missing attribute, and [textContent]. *)
Record Entry := mkEntry {
  start_attr : option string;
  dur_attr : option string;
  text_content : option string
}.

(** The first [;] of a string: the text before it and the text after it. *)
Fixpoint split_semicolon (s : string) : option (string * string) :=
  match s with
  | EmptyString => None
  | String c rest =>
      if Ascii.eqb c ";"%char then Some (EmptyString, rest)
      else option_map (fun p => (String c (fst p), snd p)) (split_semicolon rest)
  end.

Section ParseTimedtext.

(** [new DOMParser().parseFromString(xml, 'text/xml').querySelectorAll('entry')]. *)
Variable parse_entries : string -> Completion (list Entry).
(** The global [parseFloat]. *)
Variable parseFloat : string -> PrimFloat.float.
(** [String.prototype.trim]. *)
Variable js_trim : string -> string.
(** The [textarea] round trip that decodes one HTML entity. *)
Variable decode_entity : string -> string.

(** [text.replace(/&[^;]+;/g, decode)]: each [&], the characters up to the
    next [;] (at least one) and that [;] are replaced, left to right. *)
Fixpoint replace_entities (fuel : nat) (s : string) : string :=
  match fuel with
  | O => s
  | S fuel' =>
      match s with
      | EmptyString => EmptyString
      | String c rest =>
          if Ascii.eqb c "&"%char then
            match split_semicolon rest with
            | Some (body, after) =>
                if String.eqb body EmptyString then String c (replace_entities fuel' rest)
                else String.append (decode_entity (String c (String.append body ";")))
                                   (replace_entities fuel' after)
            | None => String c (replace_entities fuel' rest)
            end
          else String c (replace_entities fuel' rest)
      end
  end.

Definition clean_text (t : string) : string := replace_entities (String.length t) t.

(** JavaScript truthiness of [getAttribute]'s result. *)
Definition truthy_attr (o : option string) : bool :=
  match o with Some s => negb (String.eqb s EmptyString) | None => false end.

(** The [forEach] body: the segment pushed for one entry, if any. *)
Definition entry_segment (e : Entry) : option TranscriptSegment :=
  let t := match text_content e with Some c => js_trim c | None => EmptyString end in
  match start_attr e, dur_attr e with
  | Some startStr, Some durStr =>
      if negb (String.eqb startStr EmptyString) && negb (String.eqb durStr EmptyString)
         && negb (String.eqb t EmptyString)
      then let st := parseFloat startStr in
           let duration := parseFloat durStr in
           Some (mkTranscriptSegment st (PrimFloat.add st duration) (clean_text t))
      else None
  | _, _ => None
  end.

Definition push_entry (segs : list TranscriptSegment) (e : Entry) : list TranscriptSegment :=
  match entry_segment e with Some s => segs ++ [s] | None => segs end.

(** [parseTimedtext]: the [try] block, with its [catch] returning []. *)
Definition parseTimedtext (xml : string) : Completion (list TranscriptSegment) :=
  match parse_entries xml with
  | Normal entries => Normal (fold_left push_entry entries [])
  | Thrown _ => Normal []
  end.

End ParseTimedtext.

(** The names a plain object inherits from [Object.prototype]; reading one
    that is not an own property yields a function (or, for [__proto__], the
    prototype object itself). *)
Definition object_prototype_props : list string :=
  ["constructor"; "__defineGetter__"; "__defineSetter__"; "hasOwnProperty";
   "__lookupGetter__"; "__lookupSetter__"; "isPrototypeOf"; "propertyIsEnumerable";
   "toString"; "valueOf"; "__proto__"; "toLocaleString"]%string.

(** A [TranscriptData] object at run time: a number property may be missing,
    and reading it then gives [undefined] ([None]). *)
Record SegmentValue := mkSegmentValue {
  sv_startTime : option PrimFloat.float;
  sv_endTime : option PrimFloat.float;
  sv_text : string
}.

Record TranscriptValue := mkTranscriptValue {
  tv_videoId : string;
  tv_segments : list SegmentValue;
  tv_language : string
}.

(** The object the code builds from a [TranscriptData]: every property set. *)
Definition segment_value (s : TranscriptSegment) : SegmentValue :=
  mkSegmentValue (Some (startTime s)) (Some (endTime s)) (text s).

Definition transcript_value (t : TranscriptData) : TranscriptValue :=
  mkTranscriptValue (videoId t) (map segment_value (segments t)) (language t).

(** What [chrome.storage.local] keeps of a value: a JSON-like copy, in which
    a number that is not finite ([NaN], [Infinity]) cannot be represented and
    its property is left out, as [JSON.stringify] leaves it out. *)
Definition stored_number (o : option PrimFloat.float) : option PrimFloat.float :=
  match o with
  | Some x => if PrimFloat.is_finite x then Some x else None
  | None => None
  end.

Definition stored_segment (s : SegmentValue) : SegmentValue :=
  mkSegmentValue (stored_number (sv_startTime s)) (stored_number (sv_endTime s)) (sv_text s).

Definition stored_value (v : TranscriptValue) : TranscriptValue :=
  mkTranscriptValue (tv_videoId v) (map stored_segment (tv_segments v)) (tv_language v).

Definition stored_copy (t : TranscriptData) : TranscriptValue := stored_value (transcript_value t).

(** A value read from the cache object. *)
Inductive JSValue :=
| JSTranscript (t : TranscriptValue)
| JSInherited (name : string)
| JSUndefined
| JSNull.

(** [Record<string, TranscriptData>] at run time: a plain object whose own
    properties are the map. *)
Definition js_get (own : gmap string TranscriptValue) (k : string) : JSValue :=
  match own !! k with
  | Some t => JSTranscript t
  | None => if existsb (String.eqb k) object_prototype_props then JSInherited k else JSUndefined
  end.

(** [obj[k] = v]: the key [__proto__] runs the inherited setter, which
    replaces the prototype and adds no own property. *)
Definition js_set (own : gmap string TranscriptValue) (k : string) (v : TranscriptValue)
  : gmap string TranscriptValue :=
  if String.eqb k "__proto__" then own else <[k := v]> own.

Definition js_truthy (v : JSValue) : bool :=
  match v with JSTranscript _ | JSInherited _ => true | JSUndefined | JSNull => false end.

(** [try { ... } catch (error) { ... }]. *)
Definition try_catch {A : Type} (c : Completion A) (handler : string -> Completion A)
  : Completion A :=
  match c with
  | Normal a => Normal a
  | Thrown e => handler e
  end.

(** How [chrome.storage.local] answers one call: it succeeds, or it fails,
    either with [chrome.runtime.lastError] set in the callback (the quota
    exceeded by a [set], ...) or by throwing from the call itself ("Extension
    context invalidated" once the extension has been reloaded).  The code
    wraps each call in a [Promise] that rejects in both cases. *)
Inductive StorageReply :=
| StorageOk
| StorageFailed (error : string).

(** [chrome.storage.local]: the stored [transcriptCache], if any (only own
    properties survive storage); the number of calls answered so far; and
    the answer to each call, by its number. *)
Record Storage := mkStorage {
  transcriptCache : option (gmap string TranscriptValue);
  storage_calls : nat;
  storage_reply : nat -> StorageReply
}.

(** One call: its answer, and the storage with the call counted. *)
Definition storage_call (st : Storage) : StorageReply * Storage :=
  (storage_reply st (storage_calls st),
   mkStorage (transcriptCache st) (S (storage_calls st)) (storage_reply st)).

(** [await new Promise(... chrome.storage.local.get('transcriptCache', ...))]. *)
Definition storage_get (st : Storage)
  : Completion (option (gmap string TranscriptValue)) * Storage :=
  let '(r, st1) := storage_call st in
  match r with
  | StorageOk => (Normal (transcriptCache st1), st1)
  | StorageFailed e => (Thrown e, st1)
  end.

(** [await new Promise(... chrome.storage.local.set({ transcriptCache: cache }, ...))]:
    the whole object is stored, as its copy, or nothing is. *)
Definition storage_set (st : Storage) (cache : gmap string TranscriptValue)
  : Completion unit * Storage :=
  let '(r, st1) := storage_call st in
  match r with
  | StorageOk => (Normal tt, mkStorage (Some (stored_value <$> cache)) (storage_calls st1)
                                       (storage_reply st1))
  | StorageFailed e => (Thrown e, st1)
  end.

(** [cacheTranscript]: read the cache ([|| {}] when absent), set the entry,
    write the cache back; its [catch] swallows a failure of either call. *)
Definition cacheTranscript (st : Storage) (t : TranscriptData) : Completion unit * Storage :=
  let '(c, st') :=
    match storage_get st with
    | (Thrown e, st1) => (Thrown e, st1)
    | (Normal stored, st1) =>
        storage_set st1 (js_set (default ∅ stored) (videoId t) (transcript_value t))
    end in
  (try_catch c (fun _ => Normal tt), st').

(** [const cache = result.transcriptCache || {}; return cache[videoId] || null]. *)
Definition cached_value (stored : option (gmap string TranscriptValue)) (vid : string)
  : JSValue :=
  let v := js_get (default ∅ stored) vid in
  if js_truthy v then v else JSNull.

(** [getCachedTranscript]: its [catch] returns [null]. *)
Definition getCachedTranscript (st : Storage) (vid : string) : Completion JSValue * Storage :=
  let '(r, st') := storage_get st in
  (try_catch (match r with
              | Normal stored => Normal (cached_value stored vid)
              | Thrown e => Thrown e
              end) (fun _ => Normal JSNull), st').


(** Every entry of a stored cache is its own stored copy, as is every value
    [chrome.storage.local] gives back. *)
Definition stored_form (stored : option (gmap string TranscriptValue)) : Prop :=
  forall k x, default ∅ stored !! k = Some x -> stored_value x = x.


(** All the times of a transcript are finite numbers. *)
Definition finite_times (t : TranscriptData) : Prop :=
  Forall (fun s => PrimFloat.is_finite (startTime s) = true /\
                   PrimFloat.is_finite (endTime s) = true) (segments t).

End Transcript.

Module TranscriptFetch.
Import Transcript.

(** [String.prototype.includes]. *)
Fixpoint includes (s pat : string) : bool :=
  String.prefix pat s ||
  match s with EmptyString => false | String _ rest => includes rest pat end.

(** [interface CaptionTrack] (the fields the code reads). *)
Record CaptionTrack := mkCaptionTrack {
  baseUrl : string;
  simpleText : string   (* [name.simpleText] *)
}.

(** [interface YouTubeInitialData]: every level is optional at run time. *)
Record TracklistRenderer := mkTracklistRenderer { captionTracks : option (list CaptionTrack) }.
Record Captions := mkCaptions { playerCaptionsTracklistRenderer : option TracklistRenderer }.
Record YouTubeInitialData := mkYouTubeInitialData { captions : option Captions }.

(** What the extension's code reads from the browser.  Strings are
    sequences of 8-bit characters: the model covers text whose characters
    are below U+0100, for which the only JavaScript line terminators are
    [\n] and [\r]. *)
Record Browser := mkBrowser {
  dom_entries : string -> Completion (list Entry);      (* DOMParser + querySelectorAll('entry') *)
  parse_float : string -> PrimFloat.float;             (* parseFloat *)
  str_trim : string -> string;                         (* String.prototype.trim *)
  entity_decode : string -> string;                    (* the textarea decoding *)
  str_lower : string -> string;                        (* String.prototype.toLowerCase *)
  json_parse : string -> Completion YouTubeInitialData; (* JSON.parse *)
  caption_url : string -> Completion string;           (* new URL(b); set fmt=json3; toString *)
  fetch_url : string -> Completion (bool * Completion string); (* fetch: response.ok, response.text() *)
  percent_decode : string -> string;                   (* percent-decoding of URLSearchParams *)
  script_texts : list (option string);                 (* textContent of each <script> *)
  location_search : string;
  location_pathname : string;
  meta_title : option string;      (* content of meta[name="title"], if the tag exists *)
  document_title : string;
  channel_text : option string     (* textContent of the channel link, if one exists *)
}.

Definition is_line_terminator (c : Ascii.ascii) : bool :=
  Ascii.eqb c "010"%char || Ascii.eqb c "013"%char.

(** After the [{] of [({.*?});]: the shortest [.*?] (no line terminator)
    followed by [};]; gives the text between the braces and what follows
    the [;]. *)
Fixpoint lazy_body (s : string) : option (string * string) :=
  match s with
  | String c rest =>
      if Ascii.eqb c "}"%char && String.prefix ";" rest then Some (EmptyString, rest)
      else if is_line_terminator c then None
      else option_map (fun p => (String c (fst p), snd p)) (lazy_body rest)
  | EmptyString => None
  end.

Definition yt_marker : string := "var ytInitialData = {".

(** [text.match(/var ytInitialData = ({.*?});/)]: the leftmost match;
    the result is group 1. *)
Fixpoint match_initial_data (s : string) : option string :=
  let here :=
    if String.prefix yt_marker s then
      match lazy_body (String.substring (String.length yt_marker)
                         (String.length s) s) with
      | Some (body, _) => Some (String "{"%char (String.append body "}"))
      | None => None
      end
    else None in
  match here with
  | Some g => Some g
  | None => match s with EmptyString => None | String _ rest => match_initial_data rest end
  end.

(** [getYouTubeInitialData]: the first script that mentions the variable,
    matches the pattern and parses; a parse error moves on to the next. *)
Fixpoint scan_scripts (B : Browser) (scripts : list (option string))
  : option YouTubeInitialData :=
  match scripts with
  | [] => None
  | Some txt :: rest =>
      if includes txt "var ytInitialData" then
        match match_initial_data txt with
        | Some g =>
            match json_parse B g with
            | Normal d => Some d
            | Thrown _ => scan_scripts B rest
            end
        | None => scan_scripts B rest
        end
      else scan_scripts B rest
  | None :: rest => scan_scripts B rest
  end.

Definition getYouTubeInitialData (B : Browser) : option YouTubeInitialData :=
  scan_scripts B (script_texts B).

(** [getCaptionTracks]. *)
Definition getCaptionTracks (B : Browser) : list CaptionTrack :=
  match getYouTubeInitialData B with
  | Some d =>
      match captions d with
      | Some c =>
          match playerCaptionsTracklistRenderer c with
          | Some r => match captionTracks r with Some ts => ts | None => [] end
          | None => []
          end
      | None => []
      end
  | None => []
  end.

(** [fetchTimedtext]: a failed fetch, a non-ok response or a failed body
    read give []. *)
Definition fetchTimedtext (B : Browser) (url : string) : list TranscriptSegment :=
  match fetch_url B url with
  | Normal (true, Normal xml) =>
      match parseTimedtext (dom_entries B) (parse_float B) (str_trim B) (entity_decode B) xml with
      | Normal segs => segs
      | Thrown _ => []
      end
  | _ => []
  end.

(** The track [fetchYouTubeTranscript] picks: the first whose name mentions
    English, else the first. *)
Definition select_track (B : Browser) (t0 : CaptionTrack) (tracks : list CaptionTrack)
  : CaptionTrack :=
  match List.find (fun t => includes (str_lower B (simpleText t)) "english") tracks with
  | Some t => t
  | None => t0
  end.

(** [fetchYouTubeTranscript]. *)
Definition fetchYouTubeTranscript (B : Browser) (vid : string) : option TranscriptData :=
  match getCaptionTracks B with
  | [] => None
  | (t0 :: _) as tracks =>
      let sel := select_track B t0 tracks in
      if String.eqb (baseUrl sel) EmptyString then None
      else match caption_url B (baseUrl sel) with
           | Thrown _ => None
           | Normal url =>
               match fetchTimedtext B url with
               | [] => None
               | segs => Some (mkTranscriptData vid segs (simpleText sel))
               end
           end
  end.

(** ** Observations used by the proofs *)

(** No [\n] or [\r] in [s]. *)
Definition no_line_terminator (s : string) : bool :=
  forallb (fun c => negb (is_line_terminator c)) (list_ascii_of_string s).

(** The attempt of [match_initial_data] at the start of [s]. *)
Definition initial_data_here (s : string) : option string :=
  if String.prefix yt_marker s then
    match lazy_body (String.substring (String.length yt_marker) (String.length s) s) with
    | Some (body, _) => Some (String "{"%char (String.append body "}"))
    | None => None
    end
  else None.

(** A script [getYouTubeInitialData] passes over: no text, no mention of
    the variable, no match, or a group that [JSON.parse] rejects. *)
Definition script_skipped (B : Browser) (o : option string) : Prop :=
  match o with
  | None => True
  | Some txt =>
      includes txt "var ytInitialData" = false \/ match_initial_data txt = None \/
      exists g exn, match_initial_data txt = Some g /\ json_parse B g = Thrown exn
  end.

End TranscriptFetch.

Module ContentScript.
Import Transcript TranscriptFetch.

(** ** [getYouTubeVideoId] *)

(** [s.split(c)]. *)
Fixpoint split_on (c : Ascii.ascii) (s : string) : list string :=
  match s with
  | EmptyString => [EmptyString]
  | String d rest =>
      if Ascii.eqb d c then EmptyString :: split_on c rest
      else match split_on c rest with
           | w :: ws => String d w :: ws
           | [] => [String d EmptyString]
           end
  end.

(** A name-value pair of [application/x-www-form-urlencoded]: split at the
    first [=]; without one the value is empty. *)
Definition split_pair (seq : string) : string * string :=
  match split_on "="%char seq with
  | [] => (seq, EmptyString)
  | [n] => (n, EmptyString)
  | n :: _ => (n, String.substring (S (String.length n)) (String.length seq) seq)
  end.

Fixpoint replace_plus (s : string) : string :=
  match s with
  | EmptyString => EmptyString
  | String c rest => String (if Ascii.eqb c "+"%char then " "%char else c) (replace_plus rest)
  end.

(** [new URLSearchParams(search)]: a leading [?] is dropped, the text is split
    on [&], empty pieces are skipped, and names and values are decoded. *)
Definition url_params (B : Browser) (search : string) : list (string * string) :=
  let q := match search with String "?"%char rest => rest | _ => search end in
  map (fun seq => let p := split_pair seq in
                  (percent_decode B (replace_plus (fst p)),
                   percent_decode B (replace_plus (snd p))))
      (List.filter (fun seq => negb (String.eqb seq EmptyString)) (split_on "&"%char q)).

(** [URLSearchParams.get]: the value of the first pair with that name. *)
Definition params_get (ps : list (string * string)) (name : string) : option string :=
  option_map snd (List.find (fun p => String.eqb (fst p) name) ps).

(** [[^c]+] from the start of a string (greedy). *)
Fixpoint take_until (c : Ascii.ascii) (s : string) : string :=
  match s with
  | String d rest => if Ascii.eqb d c then EmptyString else String d (take_until c rest)
  | EmptyString => EmptyString
  end.

(** [pathname.match(/\/watch\?v=([^&]+)|\/shorts\/([^?]+)/)]: at the leftmost
    position where an alternative matches, the first alternative tried
    first; the two capture groups. *)
Fixpoint match_path (s : string) : option (option string * option string) :=
  let alt1 :=
    if String.prefix "/watch?v=" s then
      let g := take_until "&"%char (String.substring 9 (String.length s) s) in
      if String.eqb g EmptyString then None else Some g
    else None in
  let alt2 :=
    if String.prefix "/shorts/" s then
      let g := take_until "?"%char (String.substring 8 (String.length s) s) in
      if String.eqb g EmptyString then None else Some g
    else None in
  match alt1, alt2 with
  | Some g, _ => Some (Some g, None)
  | None, Some g => Some (None, Some g)
  | None, None => match s with EmptyString => None | String _ rest => match_path rest end
  end.

(** [getYouTubeVideoId]. *)
Definition getYouTubeVideoId (B : Browser) : option string :=
  let fromParams :=
    match params_get (url_params B (location_search B)) "v" with
    | Some v => if String.eqb v EmptyString then None else Some v
    | None => None
    end in
  match fromParams with
  | Some v => Some v
  | None =>
      match match_path (location_pathname B) with
      | Some (Some g, _) => Some g
      | Some (None, g2) => g2
      | None => None
      end
  end.

(** ** Page metadata *)

(** [VideoMetadata] of [types.ts]. *)
Record VideoMetadata := mkVideoMetadata {
  md_videoId : string;
  md_title : string;
  md_channel : string;
  md_currentTime : PrimFloat.float;
  md_duration : PrimFloat.float
}.

(** [getVideoMetadata]: [titleMeta?.content || document.title] and
    [channelLink?.textContent?.trim() || 'Unknown Channel']. *)
Definition getVideoMetadata (B : Browser) : string * string :=
  let title := match meta_title B with
               | Some c => if String.eqb c EmptyString then document_title B else c
               | None => document_title B
               end in
  let channel := match channel_text B with
                 | Some t => let t' := str_trim B t in
                             if String.eqb t' EmptyString then "Unknown Channel" else t'
                 | None => "Unknown Channel"
                 end in
  (title, channel).

(** [getVideoMetadataForElement], for a video at [currentTime], [duration]. *)
Definition getVideoMetadataForElement (B : Browser) (currentTime duration : PrimFloat.float)
  : option VideoMetadata :=
  match getYouTubeVideoId B with
  | None => None
  | Some vid =>
      if String.eqb vid EmptyString then None
      else let '(title, channel) := getVideoMetadata B in
           Some (mkVideoMetadata vid title channel currentTime duration)
  end.

(** ** Video tracking *)

(** The messages sent to the background script. *)
Inductive Message :=
| VideoDetected (m : VideoMetadata)
| VideoUpdated (videoId : string) (currentTime : PrimFloat.float)
| VideoStopped (videoId : string)
| TranscriptFetched (data : JSValue)
| TranscriptError (videoId : string) (error : string).

(** The content script's state.  Video elements are numbered.  Every call of
    [setupVideoTracking] attaches four listeners that share one
    [videoEntry]; [listeners] keeps, in attachment order, the video and
    that entry's [isTracking].  Handlers are taken to run to completion one
    after the other.  [sendMessageToBackground] always completes: its own
    [catch] swallows a failing [chrome.runtime.sendMessage]. *)
Record CSState := mkCSState {
  listeners : list (nat * bool);
  trackedVideos : list nat;          (* the keys of the [trackedVideos] map *)
  storage : Storage;
  outbox : list Message              (* messages passed to [sendMessageToBackground], oldest first *)
}.

Definition initial_state (st : Storage) : CSState := mkCSState [] [] st [].

(** What one listener's handler may change besides its own [isTracking]. *)
Record Shared := mkShared { sh_tracked : list nat; sh_storage : Storage; sh_outbox : list Message }.

Inductive EventKind := EvPlay | EvTimeUpdate | EvPause | EvEnded.

(** The [try] block of the [play] handler: the messages it sends, how it
    completes, and the storage after it.  Each awaited call settles as its
    promise does; [fetchYouTubeTranscript] gives [null] on every failure
    (its own [catch]). *)
Definition play_try (B : Browser) (st : Storage) (vid : string)
  : list Message * Completion unit * Storage :=
  match getCachedTranscript st vid with
  | (Thrown e, st1) => ([], Thrown e, st1)
  | (Normal cached, st1) =>
      if js_truthy cached then ([TranscriptFetched cached], Normal tt, st1)
      else match fetchYouTubeTranscript B vid with
           | Some t =>
               match cacheTranscript st1 t with
               | (Thrown e, st2) => ([], Thrown e, st2)
               | (Normal _, st2) =>
                   ([TranscriptFetched (JSTranscript (transcript_value t))], Normal tt, st2)
               end
           | None => ([], Normal tt, st1)
           end
  end.

(** The transcript part of the [play] handler: the [try] block, and the
    [catch] that sends [TRANSCRIPT_ERROR] with [String(error)]. *)
Definition play_transcript (B : Browser) (st : Storage) (vid : string)
  : list Message * Storage :=
  match play_try B st vid with
  | (msgs, Normal _, st') => (msgs, st')
  | (msgs, Thrown e, st') => (msgs ++ [TranscriptError vid e], st')
  end.

Definition remove_video (v : nat) (l : list nat) : list nat :=
  List.filter (fun w => negb (Nat.eqb w v)) l.

(** One listener of video [v], with its entry's [isTracking]. *)
Definition handle (B : Browser) (k : EventKind) (v : nat) (ct dur : PrimFloat.float)
    (tracking : bool) (sh : Shared) : bool * Shared :=
  match k with
  | EvPlay =>
      match getVideoMetadataForElement B ct dur with
      | None => (tracking, sh)
      | Some m =>
          let '(msgs, st') := play_transcript B (sh_storage sh) (md_videoId m) in
          (true, mkShared (sh_tracked sh) st' (sh_outbox sh ++ VideoDetected m :: msgs))
      end
  | EvTimeUpdate | EvPause =>
      if tracking then
        match getVideoMetadataForElement B ct dur with
        | Some m => (tracking, mkShared (sh_tracked sh) (sh_storage sh)
                                 (sh_outbox sh ++ [VideoUpdated (md_videoId m) (md_currentTime m)]))
        | None => (tracking, sh)
        end
      else (tracking, sh)
  | EvEnded =>
      if tracking then
        match getVideoMetadataForElement B ct dur with
        | Some m => (false, mkShared (remove_video v (sh_tracked sh)) (sh_storage sh)
                              (sh_outbox sh ++ [VideoStopped (md_videoId m)]))
        | None => (tracking, sh)
        end
      else (tracking, sh)
  end.

(** Dispatch to the listeners of [v], in attachment order. *)
Fixpoint dispatch (B : Browser) (k : EventKind) (v : nat) (ct dur : PrimFloat.float)
    (ls : list (nat * bool)) (sh : Shared) : list (nat * bool) * Shared :=
  match ls with
  | [] => ([], sh)
  | (w, f) :: ls' =>
      let '(f', sh1) := if Nat.eqb w v then handle B k v ct dur f sh else (f, sh) in
      let '(ls'', sh2) := dispatch B k v ct dur ls' sh1 in
      ((w, f') :: ls'', sh2)
  end.

Definition fire (B : Browser) (k : EventKind) (v : nat) (ct dur : PrimFloat.float)
    (s : CSState) : CSState :=
  let '(ls, sh) := dispatch B k v ct dur (listeners s)
                     (mkShared (trackedVideos s) (storage s) (outbox s)) in
  mkCSState ls (sh_tracked sh) (sh_storage sh) (sh_outbox sh).

(** [setupVideoTracking]: a fresh entry, recorded in [trackedVideos]. *)
Definition setupVideoTracking (v : nat) (s : CSState) : CSState :=
  mkCSState (listeners s ++ [(v, false)])
    (if existsb (Nat.eqb v) (trackedVideos s) then trackedVideos s else trackedVideos s ++ [v])
    (storage s) (outbox s).

(** [findAndTrackVideos], given the page's [video] elements. *)
Definition findAndTrackVideos (videos : list nat) (s : CSState) : CSState :=
  fold_left (fun s v => if existsb (Nat.eqb v) (trackedVideos s) then s
                        else setupVideoTracking v s) videos s.

(** The events the content script reacts to. *)
Inductive PageEvent :=
| MediaEvent (k : EventKind) (v : nat) (currentTime duration : PrimFloat.float)
| ChildListMutation (addedNodes : nat) (videos : list nat)
| SrcMutation (v : nat)               (* a [src] change on a [video] element *)
| InitTimeout (playing : list (nat * PrimFloat.float * PrimFloat.float)).
  (* the [setTimeout] of [init]: the videos not paused *)

(** The [setTimeout] callback of [init]. *)
Definition init_timeout (B : Browser) (playing : list (nat * PrimFloat.float * PrimFloat.float))
    (s : CSState) : CSState :=
  fold_left (fun s '(_, ct, dur) =>
    match getVideoMetadataForElement B ct dur with
    | Some m => mkCSState (listeners s) (trackedVideos s) (storage s)
                          (outbox s ++ [VideoDetected m])
    | None => s
    end) playing s.

Definition step (B : Browser) (s : CSState) (e : PageEvent) : CSState :=
  match e with
  | MediaEvent k v ct dur => fire B k v ct dur s
  | ChildListMutation n videos => if Nat.eqb n 0 then s else findAndTrackVideos videos s
  | SrcMutation v => if existsb (Nat.eqb v) (trackedVideos s) then s else setupVideoTracking v s
  | InitTimeout playing => init_timeout B playing s
  end.

(** [init]: track the videos present, then react to the events. *)
Definition run_page (B : Browser) (videos : list nat) (st : Storage) (evs : list PageEvent)
  : CSState :=
  fold_left (step B) evs (findAndTrackVideos videos (initial_state st)).

(** ** Observations used by the proofs *)

(** The two alternatives of the path pattern, tried at the start of [s]. *)
Definition path_alt1 (s : string) : option string :=
  if String.prefix "/watch?v=" s then
    let g := take_until "&"%char (String.substring 9 (String.length s) s) in
    if String.eqb g EmptyString then None else Some g
  else None.

Definition path_alt2 (s : string) : option string :=
  if String.prefix "/shorts/" s then
    let g := take_until "?"%char (String.substring 8 (String.length s) s) in
    if String.eqb g EmptyString then None else Some g
  else None.

Definition is_detected (m : Message) : bool :=
  match m with VideoDetected _ => true | _ => false end.

Definition not_error (m : Message) : bool :=
  match m with TranscriptError _ _ => false | _ => true end.

(** The number of [VIDEO_DETECTED] messages among [ms]. *)
Definition count_detected (ms : list Message) : nat := length (List.filter is_detected ms).

(** The number of listener sets attached to video [v]. *)
Definition listener_count (v : nat) (s : CSState) : nat :=
  count_occ Nat.eq_dec (map fst (listeners s)) v.

Definition not_play (e : PageEvent) : Prop :=
  match e with MediaEvent EvPlay _ _ _ => False | _ => True end.

(** What the content script keeps about its tracked videos. *)
Definition tracking_inv (s : CSState) : Prop :=
  NoDup (trackedVideos s) /\ (forall v, In v (trackedVideos s) -> In v (map fst (listeners s))).

(** A watch page with one English caption track whose timed text has one
    entry. *)
Definition sample_page : Browser :=
  mkBrowser
    (fun _ => Normal [mkEntry (Some "0.5") (Some "2") (Some "Hello &amp; welcome")])
    (fun s => if String.eqb s "0.5" then 0.5%float else 2%float)
    (fun s => s)
    (fun e => if String.eqb e "&amp;" then "&" else e)
    (fun s => s)
    (fun _ => Normal (mkYouTubeInitialData (Some (mkCaptions (Some (mkTracklistRenderer
                (Some [mkCaptionTrack "https://www.youtube.com/api/timedtext?v=dQw4w9WgXcQ"
                                      "english"])))))))
    (fun u => Normal u)
    (fun _ => Normal (true, Normal "<transcript/>"))
    (fun s => s)
    [None; Some "var ytInitialData = {};"]
    "?v=dQw4w9WgXcQ"
    "/watch"
    (Some "Never Gonna Give You Up")
    "YouTube"
    (Some "Rick Astley").

(** A storage area with no cache yet that answers every call. *)
Definition sample_storage : Storage := mkStorage None 0 (fun _ => StorageOk).

Definition sample_metadata : VideoMetadata :=
  mkVideoMetadata "dQw4w9WgXcQ" "Never Gonna Give You Up" "Rick Astley" 0%float 0%float.

(** Video 1 played, ended, and found again by a mutation. *)
Definition sample_rediscovered : CSState :=
  run_page sample_page [1%nat] sample_storage
    [MediaEvent EvPlay 1 0%float 0%float; MediaEvent EvEnded 1 0%float 0%float;
     ChildListMutation 1 [1%nat]].

End ContentScript.

(* ================================================================== *)
(** * Proofs *)

Module ResultMergerFacts.
Import Time ResultMerger.

Lemma merge_versions_assoc (a b c : ResearchData) :
  merge_versions (merge_versions a b) c = merge_versions a (merge_versions b c).
Proof.
  destruct a as [sa ca ra wa ta], b as [sb cb rb wb tb], c as [sc cc rc wc tc].
  unfold merge_versions; cbn.
  destruct (Z.leb_spec (dt_key ta) (dt_key tb)), (Z.leb_spec (dt_key tb) (dt_key tc)); cbn.
  all: try destruct (Z.leb_spec (dt_key ta) (dt_key tc)); cbn.
  all: try destruct (Z.leb_spec (dt_key tb) (dt_key tc)); cbn.
  all: try destruct (Z.leb_spec (dt_key ta) (dt_key tb)); cbn.
  all: first [reflexivity | f_equal; lia | exfalso; lia].
Qed.

Lemma merge_versions_idem (a : ResearchData) : merge_versions a a = a.
Proof.
  destruct a as [sa ca ra wa ta]; unfold merge_versions; simpl.
  rewrite Z.leb_refl, Z.max_id; reflexivity.
Qed.

Lemma merge_versions_source (a b : ResearchData) :
  source_id a = source_id b -> source_id (merge_versions a b) = source_id a.
Proof.
  intros H; unfold merge_versions; simpl; destruct (Z.leb _ _); simpl; congruence.
Qed.

Lemma oplus_assoc (o1 o2 o3 : option ResearchData) :
  oplus (oplus o1 o2) o3 = oplus o1 (oplus o2 o3).
Proof.
  destruct o1, o2, o3; simpl; try reflexivity; now rewrite merge_versions_assoc.
Qed.

Lemma oplus_idem (o : option ResearchData) : oplus o o = o.
Proof. destruct o; simpl; [now rewrite merge_versions_idem | reflexivity]. Qed.

Lemma oplus_None_r (o : option ResearchData) : oplus o None = o.
Proof. destruct o; reflexivity. Qed.

Lemma step_source_oplus (s : string) (o : option ResearchData) (d : ResearchData) :
  step_source s o d = oplus o (step_source s None d).
Proof.
  unfold step_source; destruct (String.eqb _ _); destruct o; reflexivity.
Qed.

(** Folding the versions of [s] in [l] onto [o] is [o] merged with the
    merge of those versions. *)
Lemma fold_step_oplus (s : string) (l : list ResearchData) (o : option ResearchData) :
  fold_left (step_source s) l o = oplus o (fold_left (step_source s) l None).
Proof.
  revert o; induction l as [|d l IH]; intros o; simpl.
  - now rewrite oplus_None_r.
  - rewrite (IH (step_source s o d)), (IH (step_source s None d)).
    rewrite step_source_oplus, oplus_assoc. reflexivity.
Qed.

Lemma fold_step_twice (s : string) (l : list ResearchData) (o : option ResearchData) :
  fold_left (step_source s) l (fold_left (step_source s) l o)
  = fold_left (step_source s) l o.
Proof.
  rewrite (fold_step_oplus s l (fold_left _ l o)), (fold_step_oplus s l o).
  rewrite oplus_assoc, oplus_idem. reflexivity.
Qed.

(** Lookups in a list after an upsert. *)
Lemma lookup_upsert (acc : list ResearchData) (d : ResearchData) (s : string) :
  lookup_source (upsert acc d) s = step_source s (lookup_source acc s) d.
Proof.
  unfold step_source.
  induction acc as [|x acc IH]; cbn [upsert lookup_source].
  - destruct (String.eqb (source_id d) s); reflexivity.
  - destruct (String.eqb (source_id x) (source_id d)) eqn:Exd.
    + apply String.eqb_eq in Exd. cbn [lookup_source].
      rewrite merge_versions_source by exact Exd.
      destruct (String.eqb (source_id x) s) eqn:Exs.
      * apply String.eqb_eq in Exs. subst s.
        rewrite Exd, String.eqb_refl. reflexivity.
      * rewrite <- Exd, Exs. reflexivity.
    + cbn [lookup_source]. destruct (String.eqb (source_id x) s) eqn:Exs; [|exact IH].
      apply String.eqb_eq in Exs; subst s.
      rewrite (proj2 (String.eqb_neq (source_id d) (source_id x))); [reflexivity|].
      intros E; rewrite E, String.eqb_refl in Exd; discriminate.
Qed.

Lemma lookup_fold_upsert (l acc : list ResearchData) (s : string) :
  lookup_source (fold_left upsert l acc) s
  = fold_left (step_source s) l (lookup_source acc s).
Proof.
  revert acc; induction l as [|d l IH]; intros acc; simpl; [reflexivity|].
  rewrite IH, lookup_upsert. reflexivity.
Qed.


Lemma lookup_source_None (l : list ResearchData) (s : string) :
  lookup_source l s = None <-> ~ In s (map source_id l).
Proof.
  induction l as [|x l IH]; cbn [lookup_source map In]; [tauto|].
  destruct (String.eqb (source_id x) s) eqn:E.
  - apply String.eqb_eq in E. split; [discriminate|tauto].
  - apply String.eqb_neq in E. rewrite IH. tauto.
Qed.

Lemma lookup_source_Some (l : list ResearchData) (s : string) (r : ResearchData) :
  NoDup (map source_id l) ->
  lookup_source l s = Some r <-> In r l /\ source_id r = s.
Proof.
  induction l as [|x l IH]; cbn [lookup_source map In]; intros Hnd.
  - split; [discriminate|tauto].
  - inversion Hnd as [|? ? Hx Hnd']; subst; rewrite list_elem_of_In in Hx.
    destruct (String.eqb (source_id x) s) eqn:E.
    + apply String.eqb_eq in E. split.
      * intros H; injection H as <-; tauto.
      * intros [[<-|Hin] Hs]; [reflexivity|].
        exfalso; apply Hx; rewrite E, <- Hs; now apply in_map.
    + apply String.eqb_neq in E. rewrite IH by exact Hnd'. split.
      * tauto.
      * intros [[<-|Hin] Hs]; [contradiction|tauto].
Qed.

Lemma upsert_fresh (acc : list ResearchData) (d : ResearchData) :
  ~ In (source_id d) (map source_id acc) -> upsert acc d = acc ++ [d].
Proof.
  induction acc as [|x acc IH]; cbn [upsert map In app]; intros Hn; [reflexivity|].
  rewrite (proj2 (String.eqb_neq _ _)) by (intros E; apply Hn; left; exact E).
  rewrite IH by tauto. reflexivity.
Qed.

Lemma upsert_ids_present (acc : list ResearchData) (d : ResearchData) :
  In (source_id d) (map source_id acc) ->
  map source_id (upsert acc d) = map source_id acc.
Proof.
  induction acc as [|x acc IH]; cbn [upsert map In]; intros Hin; [contradiction|].
  destruct (String.eqb (source_id x) (source_id d)) eqn:E.
  - apply String.eqb_eq in E. cbn [map].
    rewrite merge_versions_source by exact E. reflexivity.
  - apply String.eqb_neq in E. cbn [map]. rewrite IH; [reflexivity|].
    destruct Hin as [H|H]; [contradiction|exact H].
Qed.

Lemma upsert_nodup (acc : list ResearchData) (d : ResearchData) :
  NoDup (map source_id acc) -> NoDup (map source_id (upsert acc d)).
Proof.
  intros Hnd.
  destruct (in_dec string_dec (source_id d) (map source_id acc)) as [Hin|Hn].
  - rewrite upsert_ids_present by exact Hin. exact Hnd.
  - rewrite upsert_fresh by exact Hn. rewrite map_app; cbn [map].
    apply NoDup_app; split; [exact Hnd|split].
    + intros x Hx Hy. apply list_elem_of_singleton in Hy; subst x.
      apply Hn, list_elem_of_In, Hx.
    + apply NoDup_singleton.
Qed.

Lemma fold_upsert_nodup (l acc : list ResearchData) :
  NoDup (map source_id acc) -> NoDup (map source_id (fold_left upsert l acc)).
Proof.
  revert acc; induction l as [|d l IH]; intros acc Hnd; cbn [fold_left]; [exact Hnd|].
  apply IH, upsert_nodup, Hnd.
Qed.

Lemma group_by_source_nodup (l : list ResearchData) :
  NoDup (map source_id (group_by_source l)).
Proof. apply fold_upsert_nodup; constructor. Qed.

Lemma fold_upsert_ids_present (A acc : list ResearchData) :
  (forall d, In d A -> In (source_id d) (map source_id acc)) ->
  map source_id (fold_left upsert A acc) = map source_id acc.
Proof.
  revert acc; induction A as [|d A IH]; intros acc HA; cbn [fold_left]; [reflexivity|].
  assert (Hd : map source_id (upsert acc d) = map source_id acc)
    by (apply upsert_ids_present, HA; left; reflexivity).
  rewrite IH, Hd; [reflexivity|].
  intros d' Hd'; rewrite Hd; apply HA; right; exact Hd'.
Qed.

(** Upserting records whose source_ids are new and distinct appends them. *)
Lemma fold_upsert_fresh (l acc : list ResearchData) :
  NoDup (map source_id (acc ++ l)) -> fold_left upsert l acc = acc ++ l.
Proof.
  revert acc; induction l as [|d l IH]; intros acc Hnd; cbn [fold_left].
  - now rewrite app_nil_r.
  - rewrite upsert_fresh.
    + rewrite IH; [now rewrite <- app_assoc|]. now rewrite <- app_assoc.
    + rewrite map_app in Hnd; cbn [map] in Hnd.
      apply NoDup_app in Hnd as [_ [Hdis _]].
      intros H; apply (Hdis (source_id d)); [apply list_elem_of_In, H|left].
Qed.

(** Two lists with the same distinct source_id sequence and the same entry
    for every source_id are equal. *)
Lemma eq_by_lookup (l1 l2 : list ResearchData) :
  map source_id l1 = map source_id l2 -> NoDup (map source_id l1) ->
  (forall s, lookup_source l1 s = lookup_source l2 s) -> l1 = l2.
Proof.
  revert l2; induction l1 as [|x l1 IH]; intros [|y l2] Hids Hnd Hl;
    cbn [map] in Hids; try discriminate; [reflexivity|].
  injection Hids as Hxy Hids.
  inversion Hnd as [|? ? Hx Hnd']; subst; rewrite list_elem_of_In in Hx.
  assert (x = y).
  { specialize (Hl (source_id x)); cbn [lookup_source] in Hl.
    rewrite String.eqb_refl, Hxy, String.eqb_refl in Hl. congruence. }
  subst y. f_equal. apply IH; [exact Hids|exact Hnd'|].
  intros s; specialize (Hl s); cbn [lookup_source] in Hl.
  destruct (String.eqb (source_id x) s) eqn:E; [|exact Hl].
  apply String.eqb_eq in E; subst s.
  rewrite (proj2 (lookup_source_None l1 _)) by exact Hx.
  rewrite (proj2 (lookup_source_None l2 _)) by (rewrite <- Hids; exact Hx).
  reflexivity.
Qed.

(** ** The stable sort by collection timestamp *)

Definition le_time (a b : ResearchData) : Prop :=
  dt_key (collected_at a) <= dt_key (collected_at b).

Lemma insert_by_time_perm (d : ResearchData) (l : list ResearchData) :
  Permutation (insert_by_time d l) (d :: l).
Proof.
  induction l as [|x l IH]; cbn [insert_by_time]; [reflexivity|].
  destruct (Z.ltb _ _); [reflexivity|].
  rewrite IH. apply perm_swap.
Qed.

Lemma fold_insert_perm (l acc : list ResearchData) :
  Permutation (fold_left (fun acc d => insert_by_time d acc) l acc) (acc ++ l).
Proof.
  revert acc; induction l as [|d l IH]; intros acc; cbn [fold_left].
  - now rewrite app_nil_r.
  - rewrite IH, insert_by_time_perm. cbn [app]. apply Permutation_middle.
Qed.

Lemma sort_by_time_perm (l : list ResearchData) : Permutation (sort_by_time l) l.
Proof. apply fold_insert_perm. Qed.

Lemma insert_by_time_sorted (d : ResearchData) (l : list ResearchData) :
  StronglySorted le_time l -> StronglySorted le_time (insert_by_time d l).
Proof.
  unfold le_time.
  induction l as [|x l IH]; intros Hs; cbn [insert_by_time].
  - repeat constructor.
  - apply StronglySorted_inv in Hs as [Hs Hx].
    destruct (Z.ltb_spec (dt_key (collected_at d)) (dt_key (collected_at x))).
    + constructor; [constructor; assumption|].
      constructor; [lia|]. eapply Forall_impl; [exact Hx|]. cbn; intros; lia.
    + constructor; [apply IH, Hs|].
      apply (Permutation_Forall (Permutation_sym (insert_by_time_perm d l))).
      constructor; [lia|exact Hx].
Qed.

Lemma fold_insert_sorted (l acc : list ResearchData) :
  StronglySorted le_time acc ->
  StronglySorted le_time (fold_left (fun acc d => insert_by_time d acc) l acc).
Proof.
  revert acc; induction l as [|d l IH]; intros acc Hs; cbn [fold_left]; [exact Hs|].
  apply IH, insert_by_time_sorted, Hs.
Qed.

Lemma sort_by_time_sorted (l : list ResearchData) :
  StronglySorted le_time (sort_by_time l).
Proof. apply fold_insert_sorted; constructor. Qed.

Lemma insert_by_time_last (d : ResearchData) (acc : list ResearchData) :
  Forall (fun x => le_time x d) acc -> insert_by_time d acc = acc ++ [d].
Proof.
  unfold le_time.
  induction acc as [|x acc IH]; intros H; cbn [insert_by_time app]; [reflexivity|].
  inversion H as [|? ? Hx Hacc]; subst.
  destruct (Z.ltb_spec (dt_key (collected_at d)) (dt_key (collected_at x))); [lia|].
  rewrite IH by exact Hacc. reflexivity.
Qed.

Lemma fold_insert_sorted_id (l acc : list ResearchData) :
  StronglySorted le_time (acc ++ l) ->
  fold_left (fun acc d => insert_by_time d acc) l acc = acc ++ l.
Proof.
  revert acc; induction l as [|d l IH]; intros acc Hs; cbn [fold_left].
  - now rewrite app_nil_r.
  - rewrite insert_by_time_last.
    + rewrite IH; [now rewrite <- app_assoc|]. now rewrite <- app_assoc.
    + clear IH. induction acc as [|x acc IHa]; [constructor|].
      cbn [app] in Hs. apply StronglySorted_inv in Hs as [Hs Hx].
      constructor.
      * rewrite Forall_forall in Hx. apply Hx, list_elem_of_In, in_or_app; right; left; reflexivity.
      * apply IHa, Hs.
Qed.

(** Sorting an already sorted list leaves it unchanged. *)
Lemma sort_by_time_sorted_id (l : list ResearchData) :
  StronglySorted le_time l -> sort_by_time l = l.
Proof. intros Hs. apply (fold_insert_sorted_id l []), Hs. Qed.

Lemma nodup_ids_perm (l1 l2 : list ResearchData) :
  Permutation l1 l2 -> NoDup (map source_id l1) -> NoDup (map source_id l2).
Proof.
  intros Hp Hnd. apply NoDup_ListNoDup. apply NoDup_ListNoDup in Hnd.
  exact (Permutation_NoDup (Permutation_map source_id Hp) Hnd).
Qed.

Lemma lookup_source_perm (l1 l2 : list ResearchData) (s : string) :
  Permutation l1 l2 -> NoDup (map source_id l1) ->
  lookup_source l1 s = lookup_source l2 s.
Proof.
  intros Hp Hnd.
  assert (Hnd2 : NoDup (map source_id l2)) by exact (nodup_ids_perm _ _ Hp Hnd).
  destruct (lookup_source l1 s) as [r|] eqn:E1.
  - apply (lookup_source_Some _ _ _ Hnd) in E1 as [Hin Hs].
    symmetry. apply (lookup_source_Some _ _ _ Hnd2).
    split; [exact (Permutation_in _ Hp Hin)|exact Hs].
  - apply lookup_source_None in E1. symmetry. apply lookup_source_None.
    intros H; apply E1. exact (Permutation_in _ (Permutation_map _ (Permutation_sym Hp)) H).
Qed.

(** ** The merge of all versions of one source_id *)

Lemma fold_step_None (s : string) (l : list ResearchData) (o : option ResearchData) :
  fold_left (step_source s) l o = None <->
  o = None /\ (forall d, In d l -> source_id d <> s).
Proof.
  revert o; induction l as [|x l IH]; intros o; cbn [fold_left In].
  - split; [intros ->; split; [reflexivity|intros _ []]|tauto].
  - rewrite IH. unfold step_source.
    destruct (String.eqb (source_id x) s) eqn:E.
    + apply String.eqb_eq in E. split; [intros [H _]; discriminate|].
      intros [_ H]. exfalso; exact (H x (or_introl eq_refl) E).
    + apply String.eqb_neq in E. split.
      * intros [-> H]; split; [reflexivity|]. intros d [<-|Hd]; [exact E|exact (H d Hd)].
      * intros [-> H]; split; [reflexivity|]. intros d Hd; exact (H d (or_intror Hd)).
Qed.

Lemma fold_step_spec (s : string) (l : list ResearchData) (r : ResearchData) :
  fold_left (step_source s) l None = Some r ->
  source_id r = s /\
  (forall d, In d l -> source_id d = s ->
     relevance_score d <= relevance_score r /\
        dt_key (collected_at d) <= dt_key (collected_at r)) /\
  (exists d, In d l /\ source_id d = s /\ relevance_score d = relevance_score r) /\
  (exists d, In d l /\ source_id d = s /\ collected_at d = collected_at r /\
             content d = content r /\ worker_id d = worker_id r).
Proof.
  revert r; induction l as [|d l IH] using rev_ind; intros r; cbn [fold_left].
  - discriminate.
  - rewrite fold_left_app; cbn [fold_left]. unfold step_source at 1.
    destruct (String.eqb (source_id d) s) eqn:E.
    + apply String.eqb_eq in E.
      destruct (fold_left (step_source s) l None) as [r0|] eqn:E0; cbn [merge_into];
        intros H; injection H as <-.
      * destruct (IH r0 eq_refl) as (Hs0 & Hle & [dr (Hdr & Hdrs & Hdrr)] & [dt (Hdt & Hdts & Hdtt & Hdtc & Hdtw)]).
        unfold merge_versions; cbn.
        destruct (Z.leb_spec (dt_key (collected_at r0)) (dt_key (collected_at d))); cbn.
        -- split; [exact E|split; [|split]].
           ++ intros d' Hd' Hs'. apply in_app_or in Hd' as [Hd'|[<-|[]]].
              ** specialize (Hle d' Hd' Hs'); lia.
              ** lia.
           ++ destruct (Z.max_spec (relevance_score r0) (relevance_score d)) as [[_ ->]|[_ ->]].
              ** exists d; split; [apply in_or_app; right; left; reflexivity|split; [exact E|reflexivity]].
              ** exists dr; split; [apply in_or_app; left; exact Hdr|split; [exact Hdrs|exact Hdrr]].
           ++ exists d; split; [apply in_or_app; right; left; reflexivity|].
              repeat split; exact E.
        -- split; [exact Hs0|split; [|split]].
           ++ intros d' Hd' Hs'. apply in_app_or in Hd' as [Hd'|[<-|[]]].
              ** specialize (Hle d' Hd' Hs'); lia.
              ** lia.
           ++ destruct (Z.max_spec (relevance_score r0) (relevance_score d)) as [[_ ->]|[_ ->]].
              ** exists d; split; [apply in_or_app; right; left; reflexivity|split; [exact E|reflexivity]].
              ** exists dr; split; [apply in_or_app; left; exact Hdr|split; [exact Hdrs|exact Hdrr]].
           ++ exists dt; split; [apply in_or_app; left; exact Hdt|].
              repeat split; assumption.
      * apply fold_step_None in E0 as [_ Hnone].
        split; [exact E|split; [|split]].
        -- intros d' Hd' Hs'. apply in_app_or in Hd' as [Hd'|[<-|[]]].
           ++ exfalso; exact (Hnone d' Hd' Hs').
           ++ lia.
        -- exists d; split; [apply in_or_app; right; left; reflexivity|split; [exact E|reflexivity]].
        -- exists d; split; [apply in_or_app; right; left; reflexivity|].
           repeat split; exact E.
    + apply String.eqb_neq in E. intros H.
      destruct (IH r H) as (Hs0 & Hle & [dr (Hdr & Hdrs & Hdrr)] & [dt (Hdt & Hdts & Hdtt & Hdtc & Hdtw)]).
      split; [exact Hs0|split; [|split]].
      * intros d' Hd' Hs'. apply in_app_or in Hd' as [Hd'|[<-|[]]].
        -- exact (Hle d' Hd' Hs').
        -- contradiction.
      * exists dr; split; [apply in_or_app; left; exact Hdr|split; [exact Hdrs|exact Hdrr]].
      * exists dt; split; [apply in_or_app; left; exact Hdt|].
        repeat split; assumption.
Qed.

Lemma group_by_source_lookup (l : list ResearchData) (s : string) :
  lookup_source (group_by_source l) s = fold_left (step_source s) l None.
Proof. apply (lookup_fold_upsert l [] s). Qed.

Lemma group_by_source_ids (l : list ResearchData) (s : string) :
  In s (map source_id (group_by_source l)) <-> In s (map source_id l).
Proof.
  split.
  - intros H.
    destruct (in_dec string_dec s (map source_id l)) as [Hin|Hn]; [exact Hin|].
    assert (Hnone : lookup_source (group_by_source l) s = None).
    { rewrite group_by_source_lookup. apply fold_step_None. split; [reflexivity|].
      intros d Hd Hs. apply Hn. subst s; apply in_map, Hd. }
    apply lookup_source_None in Hnone. contradiction.
  - intros H. destruct (in_dec string_dec s (map source_id (group_by_source l))) as [Hin|Hn];
      [exact Hin|].
    apply lookup_source_None in Hn. rewrite group_by_source_lookup in Hn.
    apply fold_step_None in Hn as [_ Hn].
    apply in_map_iff in H as [d [Hs Hd]]. exfalso; exact (Hn d Hd Hs).
Qed.

(** C1: [research_data_reducer] keeps exactly one record per source_id seen in
    the existing list or the incoming batch; the surviving record carries the
    maximum relevance score over all versions of its source_id, and the
    maximum collection timestamp, with the content (and worker) of a version
    collected at that timestamp.  In particular a version with relevance 0.6
    at t1 and one with relevance 0.4 at a later t2 merge to relevance 0.6,
    timestamp t2 and the content of t2, whichever side each comes from. *)
Theorem research_data_reducer_merge (existing incoming : list ResearchData) :
  let merged := research_data_reducer existing incoming in
  NoDup (map source_id merged) /\
  (forall s, In s (map source_id merged) <-> In s (map source_id (existing ++ incoming))) /\
  (forall r, In r merged ->
     (forall d, In d (existing ++ incoming) -> source_id d = source_id r ->
        relevance_score d <= relevance_score r /\
        dt_key (collected_at d) <= dt_key (collected_at r)) /\
     (exists d, In d (existing ++ incoming) /\ source_id d = source_id r /\
                relevance_score d = relevance_score r) /\
     (exists d, In d (existing ++ incoming) /\ source_id d = source_id r /\
                collected_at d = collected_at r /\ content d = content r /\
                worker_id d = worker_id r)) /\
  (forall (t1 t2 : DateTime) (c1 c2 w1 w2 : string), dt_key t1 < dt_key t2 ->
     let v1 := mkResearchData "src_1" c1 60 w1 t1 in
     let v2 := mkResearchData "src_1" c2 40 w2 t2 in
     let expected := [mkResearchData "src_1" c2 60 w2 t2] in
     research_data_reducer [v1] [v2] = expected /\
     research_data_reducer [v2] [v1] = expected /\
     research_data_reducer [] [v1; v2] = expected).
Proof.
  intros merged.
  set (G := group_by_source (existing ++ incoming)).
  assert (Hp : Permutation merged G) by apply sort_by_time_perm.
  assert (HndG : NoDup (map source_id G)) by apply group_by_source_nodup.
  split; [|split; [|split]].
  - exact (nodup_ids_perm _ _ (Permutation_sym Hp) HndG).
  - intros s. rewrite <- (group_by_source_ids (existing ++ incoming)). fold G. split; intros H.
    + exact (Permutation_in _ (Permutation_map _ Hp) H).
    + exact (Permutation_in _ (Permutation_map _ (Permutation_sym Hp)) H).
  - intros r Hr. apply (Permutation_in _ Hp) in Hr.
    assert (Hl : lookup_source G (source_id r) = Some r)
      by (apply lookup_source_Some; [exact HndG|split; [exact Hr|reflexivity]]).
    unfold G in Hl; rewrite group_by_source_lookup in Hl.
    destruct (fold_step_spec _ _ _ Hl) as (_ & Hle & Hrel & Hnew).
    split; [exact Hle|split; [exact Hrel|exact Hnew]].
  - intros t1 t2 c1 c2 w1 w2 Ht v1 v2 expected.
    subst v1 v2 expected. unfold research_data_reducer, group_by_source; cbn.
    unfold merge_versions; cbn.
    destruct (Z.leb_spec (dt_key t1) (dt_key t2)), (Z.leb_spec (dt_key t2) (dt_key t1)); try lia.
    repeat split.
Qed.

(** C2: applying [research_data_reducer] a second time with the same incoming
    batch returns the result of the first application, which has no
    duplicate source_ids. *)
Theorem research_data_reducer_idempotent (existing incoming : list ResearchData) :
  research_data_reducer (research_data_reducer existing incoming) incoming
  = research_data_reducer existing incoming /\
  NoDup (map source_id
    (research_data_reducer (research_data_reducer existing incoming) incoming)).
Proof.
  set (G := group_by_source (existing ++ incoming)).
  set (L := research_data_reducer existing incoming).
  assert (Hp : Permutation L G) by apply sort_by_time_perm.
  assert (HndG : NoDup (map source_id G)) by apply group_by_source_nodup.
  assert (HndL : NoDup (map source_id L)) by exact (nodup_ids_perm _ _ (Permutation_sym Hp) HndG).
  assert (Hsorted : StronglySorted le_time L) by apply sort_by_time_sorted.
  assert (Hgroup : group_by_source L = L) by (apply (fold_upsert_fresh L []), HndL).
  assert (Hids : forall d, In d incoming -> In (source_id d) (map source_id L)).
  { intros d Hd.
    apply (Permutation_in _ (Permutation_map _ (Permutation_sym Hp))).
    apply group_by_source_ids, in_map, in_or_app; right; exact Hd. }
  assert (Hsame : fold_left upsert incoming L = L).
  { apply eq_by_lookup.
    - apply fold_upsert_ids_present, Hids.
    - rewrite fold_upsert_ids_present by exact Hids. exact HndL.
    - intros s. rewrite lookup_fold_upsert.
      rewrite (lookup_source_perm L G s Hp HndL).
      unfold G; rewrite group_by_source_lookup, fold_left_app.
      apply fold_step_twice. }
  assert (Hagain : research_data_reducer L incoming = L).
  { unfold research_data_reducer at 1, group_by_source.
    rewrite fold_left_app. fold (group_by_source L). rewrite Hgroup, Hsame.
    apply sort_by_time_sorted_id, Hsorted. }
  rewrite Hagain. split; [reflexivity|exact HndL].
Qed.

End ResultMergerFacts.

Module SourceMapFacts.
Import Time ResultMerger.

Lemma union_workers_In (old new : list string) (w : string) :
  In w (union_workers old new) <-> In w old \/ In w new.
Proof.
  unfold union_workers. revert old; induction new as [|x new IH]; intros old;
    cbn [fold_left In]; [tauto|].
  rewrite IH. destruct (existsb (String.eqb x) old) eqn:E.
  - apply existsb_exists in E as [y [Hy Hxy]]. apply String.eqb_eq in Hxy; subst y.
    split; [tauto|]. intros [H|[<-|H]]; tauto.
  - rewrite in_app_iff; cbn [In]. split; intros H; intuition.
Qed.

(** C3: [source_map_reducer] keeps every source_id of the existing map and
    never shrinks its contributor set; where both maps define a source_id,
    the merged entry's contributors are the union of both sides' and its
    first-seen timestamp is the earlier of the two.  Merging
    {src_1: workers [w1]} with {src_1: workers [w2]} gives workers [w1; w2]. *)
Theorem source_map_reducer_growth (existing incoming : gmap string Source) :
  let merged := source_map_reducer existing incoming in
  (forall id so, existing !! id = Some so ->
     exists s, merged !! id = Some s /\
       (forall w, In w (contributors so) -> In w (contributors s))) /\
  (forall id so sn, existing !! id = Some so -> incoming !! id = Some sn ->
     exists s, merged !! id = Some s /\
       (forall w, In w (contributors s) <-> In w (contributors so) \/ In w (contributors sn)) /\
       (first_seen s = first_seen so \/ first_seen s = first_seen sn) /\
       dt_key (first_seen s) <= dt_key (first_seen so) /\
       dt_key (first_seen s) <= dt_key (first_seen sn)) /\
  (forall (u1 u2 t1 t2 : string) (f1 f2 : DateTime),
     source_map_reducer {[ "src_1" := mkSource u1 t1 f1 ["w1"] ]}
                        {[ "src_1" := mkSource u2 t2 f2 ["w2"] ]} !! "src_1"
     = Some (mkSource u1 t1 (earliest f1 f2) ["w1"; "w2"])).
Proof.
  intros merged. split; [|split].
  - intros id so Hso. unfold merged, source_map_reducer.
    rewrite lookup_union_with, Hso.
    destruct (incoming !! id) as [sn|]; cbn.
    + exists (merge_source so sn); split; [reflexivity|].
      intros w Hw; cbn. apply union_workers_In; left; exact Hw.
    + exists so; split; [reflexivity|tauto].
  - intros id so sn Hso Hsn. unfold merged, source_map_reducer.
    rewrite lookup_union_with, Hso, Hsn; cbn.
    exists (merge_source so sn); split; [reflexivity|]; cbn.
    split; [apply union_workers_In|].
    unfold earliest. destruct (Z.leb_spec (dt_key (first_seen so)) (dt_key (first_seen sn)));
      repeat split; try lia; tauto.
  - intros u1 u2 t1 t2 f1 f2. unfold source_map_reducer.
    rewrite lookup_union_with, !lookup_singleton_eq. reflexivity.
Qed.

End SourceMapFacts.

Module SerializationFacts.
Import Time Json ResultMerger State Serialization StateJson.
Local Open Scope stdpp_scope.

Lemma char_digit_digit_char (q : Z) :
  0 <= q <= 9 -> char_digit (digit_char q) = Some q.
Proof.
  intros Hq.
  assert (q = 0 \/ q = 1 \/ q = 2 \/ q = 3 \/ q = 4 \/ q = 5 \/ q = 6 \/ q = 7 \/ q = 8 \/ q = 9)
    as Hc by lia.
  repeat destruct Hc as [->|Hc]; try reflexivity; subst; reflexivity.
Qed.

Lemma append_String (c : Ascii.ascii) (s r : string) :
  String c s +:+ r = String c (s +:+ r).
Proof. reflexivity. Qed.

Lemma parse_fixed_render (w : nat) (acc n : Z) (rest : string) :
  0 <= n < 10 ^ Z.of_nat w ->
  parse_fixed w acc (render_fixed w n +:+ rest) = Some (acc * 10 ^ Z.of_nat w + n, rest).
Proof.
  revert acc n; induction w as [|w IH]; intros acc n Hn;
    cbn [render_fixed String.append parse_fixed].
  - cbn in Hn. f_equal. f_equal. lia.
  - assert (Hp : 10 ^ Z.of_nat (S w) = 10 * 10 ^ Z.of_nat w)
      by (rewrite Nat2Z.inj_succ, Z.pow_succ_r; lia).
    assert (Hpos : 0 < 10 ^ Z.of_nat w) by (apply Z.pow_pos_nonneg; lia).
    rewrite Hp in *.
    assert (Hq : 0 <= n / 10 ^ Z.of_nat w <= 9).
    { split; [apply Z.div_pos; lia|]. apply Z.lt_succ_r, Z.div_lt_upper_bound; lia. }
    rewrite append_String. cbn [parse_fixed].
    rewrite char_digit_digit_char by exact Hq.
    rewrite IH by (apply Z.mod_pos_bound; lia).
    f_equal. f_equal.
    pose proof (Z.div_mod n (10 ^ Z.of_nat w) ltac:(lia)). nia.
Qed.

Lemma parse_fixed_render0 (w : nat) (n : Z) (rest : string) :
  0 <= n < 10 ^ Z.of_nat w ->
  parse_fixed w 0 (render_fixed w n +:+ rest) = Some (n, rest).
Proof. intros H. rewrite parse_fixed_render by exact H. reflexivity. Qed.

Lemma string_app_empty_r (s : string) : s +:+ EmptyString = s.
Proof.
  induction s as [|c s IH]; [reflexivity|]. rewrite append_String, IH. reflexivity.
Qed.

Lemma expect_sep (c : Ascii.ascii) (r : string) :
  expect c (String c EmptyString +:+ r) = Some r.
Proof.
  unfold expect. change (String c EmptyString +:+ r) with (String c r). cbv iota.
  now rewrite Ascii.eqb_refl.
Qed.

Ltac iso_step :=
  rewrite parse_fixed_render0 by (cbn; lia); cbn [mbind option_bind];
  rewrite expect_sep; cbn [mbind option_bind].

(** [datetime.fromisoformat] inverts [datetime.isoformat]. *)
Lemma fromisoformat_isoformat (t : DateTime) :
  valid_datetime t -> fromisoformat (isoformat t) = Some t.
Proof.
  destruct t as [y mo d h mi sec us].
  unfold valid_datetime; cbn [year month day hour minute second microsecond].
  intros (Hy & Hmo & Hd & Hh & Hmi & Hs & Hus).
  unfold isoformat, fromisoformat; cbn [year month day hour minute second microsecond].
  iso_step. iso_step. iso_step. iso_step. iso_step.
  rewrite parse_fixed_render0 by (cbn; lia); cbn [mbind option_bind].
  destruct (Z.eqb_spec us 0) as [->|Hnz]; [reflexivity|].
  change ("." +:+ render_fixed 6 us) with (String "." (render_fixed 6 us)).
  cbv iota. rewrite Ascii.eqb_refl.
  rewrite <- (string_app_empty_r (render_fixed 6 us)).
  rewrite parse_fixed_render0 by (cbn; lia). reflexivity.
Qed.

Lemma map_option_map {A B} (f : B -> option A) (g : A -> B) (l : list A) :
  Forall (fun x => f (g x) = Some x) l -> map_option f (map g l) = Some l.
Proof.
  induction 1 as [|x l Hx _ IH]; cbn; [reflexivity|]. now rewrite Hx, IH.
Qed.

Lemma des_list_ser_list {A} (f : json -> option A) (g : A -> json) (l : list A) :
  Forall (fun x => f (g x) = Some x) l -> des_list f (ser_list g l) = Some l.
Proof. apply map_option_map. Qed.

Lemma des_opt_ser_opt {A} (f : json -> option A) (g : A -> json) (o : option A) :
  (forall x, g x <> JNull /\ f (g x) = Some x) -> des_opt f (ser_opt g o) = Some o.
Proof.
  intros H. destruct o as [x|]; [|reflexivity].
  destruct (H x) as [Hn Hx]. unfold des_opt, ser_opt.
  destruct (g x) eqn:E; [contradiction| | | | |]; rewrite Hx; reflexivity.
Qed.

Lemma des_dt_ser_dt (t : DateTime) : valid_datetime t -> des_dt (ser_dt t) = Some t.
Proof. apply fromisoformat_isoformat. Qed.

Lemma des_str_all (s : string) : JStr s <> JNull /\ des_str (JStr s) = Some s.
Proof. split; [discriminate|reflexivity]. Qed.

Lemma des_strs (l : list string) : Forall (fun x => des_str (JStr x) = Some x) l.
Proof. apply Forall_forall; reflexivity. Qed.

Lemma des_task_ser (t : Task) : des_task (ser_task t) = Some t.
Proof. destruct t; reflexivity. Qed.

Lemma des_perspective_ser (p : Perspective) :
  des_perspective (ser_perspective p) = Some p.
Proof. destruct p; reflexivity. Qed.

Lemma des_plan_ser (p : Plan) : ser_plan p <> JNull /\ des_plan (ser_plan p) = Some p.
Proof.
  split; [discriminate|]. destruct p as [st].
  unfold des_plan, ser_plan, field; cbn -[des_list ser_list].
  rewrite (des_list_ser_list des_str JStr st (des_strs st)). reflexivity.
Qed.

Lemma des_section_ser (d : DraftSection) : des_section (ser_section d) = Some d.
Proof. destruct d; reflexivity. Qed.

Lemma des_research_data_ser (d : ResearchData) :
  valid_datetime (collected_at d) -> des_research_data (ser_research_data d) = Some d.
Proof.
  destruct d as [sid c r w t]; cbn [collected_at]; intros Ht.
  unfold des_research_data, ser_research_data, field; cbn -[des_dt ser_dt].
  rewrite des_dt_ser_dt by exact Ht. reflexivity.
Qed.

Lemma des_source_ser (s : Source) :
  valid_datetime (first_seen s) -> des_source (ser_source s) = Some s.
Proof.
  destruct s as [u t f c]; cbn [first_seen]; intros Hf.
  unfold des_source, ser_source, field; cbn -[des_dt ser_dt des_list ser_list].
  rewrite des_dt_ser_dt by exact Hf. cbn -[des_list ser_list].
  rewrite (des_list_ser_list des_str JStr c (des_strs c)). reflexivity.
Qed.

Lemma des_source_map_ser (m : gmap string Source) :
  map_Forall (fun _ s => valid_datetime (first_seen s)) m ->
  des_source_map (ser_source_map m) = Some m.
Proof.
  intros Hm. unfold des_source_map, ser_source_map; cbn [des_obj mbind option_bind].
  rewrite map_option_map; [cbn; now rewrite list_to_map_to_list|].
  apply Forall_forall. intros [k v] Hkv. cbn [fst snd].
  apply elem_of_map_to_list in Hkv.
  rewrite des_source_ser by exact (Hm k v Hkv). reflexivity.
Qed.

Lemma des_visit_ser (v : VisitHistory) :
  valid_datetime (visited_at v) -> des_visit (ser_visit v) = Some v.
Proof.
  destruct v as [n t md]; cbn [visited_at]; intros Ht.
  unfold des_visit, ser_visit, field; cbn -[des_dt ser_dt].
  rewrite des_dt_ser_dt by exact Ht. reflexivity.
Qed.

Lemma deserialize_serialize (st : ResearchThreadState) :
  state_datetimes_valid st -> deserialize_state (serialize_state st) = Some st.
Proof.
  destruct st as [t ps pl rd sm ds fr cr rc vh aw uf er].
  unfold state_datetimes_valid; cbn [research_data source_map visit_history].
  intros (Hrd & Hsm & Hvh).
  unfold deserialize_state, serialize_state, field.
  cbn -[des_task ser_task des_list ser_list des_opt ser_opt des_plan ser_plan
        des_perspective ser_perspective des_research_data ser_research_data
        des_source_map ser_source_map des_section ser_section des_visit ser_visit].
  rewrite des_task_ser. cbn [mbind option_bind].
  rewrite (des_list_ser_list des_perspective ser_perspective ps)
    by (apply Forall_forall; intros; apply des_perspective_ser).
  cbn [mbind option_bind].
  rewrite (des_opt_ser_opt des_plan ser_plan pl) by apply des_plan_ser.
  cbn [mbind option_bind].
  rewrite (des_list_ser_list des_research_data ser_research_data rd)
    by (eapply Forall_impl; [exact Hrd|]; intros; apply des_research_data_ser; assumption).
  cbn [mbind option_bind].
  rewrite (des_source_map_ser sm Hsm). cbn [mbind option_bind].
  rewrite (des_list_ser_list des_section ser_section ds)
    by (apply Forall_forall; intros; apply des_section_ser).
  cbn [mbind option_bind].
  rewrite !(des_opt_ser_opt des_str JStr) by apply des_str_all.
  cbn [mbind option_bind].
  rewrite (des_list_ser_list des_visit ser_visit vh)
    by (eapply Forall_impl; [exact Hvh|]; intros; apply des_visit_ser; assumption).
  reflexivity.
Qed.

(** C6: serializing a state, deserializing the result and serializing again
    gives the first serialization back, and deserializing a serialized state
    restores every field of the original state (all datetimes included). *)
Theorem serialize_roundtrip (st : ResearchThreadState) :
  state_datetimes_valid st ->
  deserialize_state (serialize_state st) = Some st /\
  (exists st', deserialize_state (serialize_state st) = Some st' /\
               serialize_state st' = serialize_state st).
Proof.
  intros Hv. pose proof (deserialize_serialize st Hv) as E.
  split; [exact E|]. exists st. split; [exact E | reflexivity].
Qed.

Lemma serialize_roundtrip_witness :
  state_datetimes_valid sample_state /\
  deserialize_state (serialize_state sample_state) = Some sample_state /\
  (exists st', deserialize_state (serialize_state sample_state) = Some st' /\
               serialize_state st' = serialize_state sample_state).
Proof.
  assert (Hv : state_datetimes_valid sample_state).
  { unfold state_datetimes_valid, valid_datetime; cbn.
    split; [|split].
    - constructor; [cbn; lia | constructor].
    - apply map_Forall_insert_2; [cbn; lia | apply map_Forall_empty].
    - constructor; [cbn; lia | constructor]. }
  split; [exact Hv | apply (serialize_roundtrip sample_state Hv)].
Defined.

End SerializationFacts.

Module CheckpointStoreFacts.
Import Time ResultMerger State CheckpointStore.

Lemma run_app (a b : list SaveReq) (s : Store) : run (a ++ b) s = run b (run a s).
Proof. unfold run. apply fold_left_app. Qed.

Lemma run_extends (rs : list SaveReq) (s : Store) :
  exists ext, checkpoints (run rs s) = checkpoints s ++ ext.
Proof.
  revert s. induction rs as [|r rs IH]; intros s.
  - exists []. cbn. symmetry. apply app_nil_r.
  - destruct (IH (save_req s r)) as [ext E]. cbn [run fold_left].
    exists ([mkCheckpoint (req_thread r) (next_seq s) (req_parent r) (req_state r)
               (req_node r)] ++ ext).
    change (fold_left save_req rs (save_req s r)) with (run rs (save_req s r)).
    rewrite E. cbn. rewrite <- app_assoc. reflexivity.
Qed.

Lemma save_req_ids_below (s : Store) (r : SaveReq) :
  ids_below s -> ids_below (save_req s r).
Proof.
  unfold ids_below, save_req, save; cbn. intros H.
  apply Forall_app. split.
  - eapply Forall_impl; [exact H|]. intros c Hc; cbn in Hc. lia.
  - constructor; [cbn; lia | constructor].
Qed.

Lemma run_ids_below (rs : list SaveReq) (s : Store) :
  ids_below s -> ids_below (run rs s).
Proof.
  revert s. induction rs as [|r rs IH]; intros s Hs; [exact Hs|].
  apply IH, save_req_ids_below, Hs.
Qed.

Lemma reachable_ids_below (rs : list SaveReq) : ids_below (run rs empty_store).
Proof. apply run_ids_below. constructor. Qed.

Lemma find_app_Some {A} (f : A -> bool) (l ext : list A) (c : A) :
  List.find f l = Some c -> List.find f (l ++ ext) = Some c.
Proof.
  induction l as [|x l IH]; cbn; [discriminate|].
  destruct (f x); [exact id | exact IH].
Qed.

Lemma find_app_None {A} (f : A -> bool) (l ext : list A) :
  Forall (fun x => f x = false) l -> List.find f (l ++ ext) = List.find f ext.
Proof.
  induction 1 as [|x l Hx _ IH]; cbn; [reflexivity|]. rewrite Hx. exact IH.
Qed.

Lemma newest_in (tid : string) (l : list Checkpoint) (acc : option Checkpoint) (b : Checkpoint) :
  fold_left (fun acc c =>
    if String.eqb (thread_id c) tid then
      match acc with
      | None => Some c
      | Some b => if Nat.ltb (checkpoint_id b) (checkpoint_id c) then Some c else Some b
      end
    else acc) l acc = Some b ->
  acc = Some b \/ List.In b l.
Proof.
  revert acc. induction l as [|x l IH]; intros acc H; cbn [fold_left] in H; [now left|].
  destruct (IH _ H) as [E|E]; [|right; now right].
  revert E. destruct (String.eqb (thread_id x) tid); [|now left].
  destruct acc as [a|]; [destruct (Nat.ltb (checkpoint_id a) (checkpoint_id x))|];
    intros E; first [left; congruence | right; left; congruence].
Qed.

Lemma newest_snoc_same (tid : string) (l : list Checkpoint) (c : Checkpoint) :
  thread_id c = tid ->
  Forall (fun x => (checkpoint_id x < checkpoint_id c)%nat) l ->
  newest tid (l ++ [c]) = Some c.
Proof.
  intros Ht Hl. unfold newest. rewrite fold_left_app. cbn [fold_left].
  rewrite Ht, String.eqb_refl.
  destruct (fold_left _ l None) as [b|] eqn:E; [|reflexivity].
  apply newest_in in E as [E|E]; [discriminate|].
  rewrite Forall_forall in Hl. apply list_elem_of_In, Hl in E.
  apply Nat.ltb_lt in E. rewrite E. reflexivity.
Qed.

Lemma newest_snoc_other (tid : string) (l : list Checkpoint) (c : Checkpoint) :
  thread_id c <> tid -> newest tid (l ++ [c]) = newest tid l.
Proof.
  intros Ht. unfold newest. rewrite fold_left_app. cbn.
  apply String.eqb_neq in Ht. rewrite Ht. reflexivity.
Qed.

Lemma run_other_threads (rs : list SaveReq) (s : Store) (tid : string) :
  Forall (fun r => req_thread r <> tid) rs ->
  get (run rs s) tid None = get s tid None.
Proof.
  intros H. revert s. induction H as [|r rs Hr _ IH]; intros s; [reflexivity|].
  cbn [run fold_left]. change (fold_left save_req rs (save_req s r)) with (run rs (save_req s r)).
  rewrite IH. unfold get, save_req, save; cbn.
  apply newest_snoc_other. exact Hr.
Qed.

Lemma save_latest (s : Store) (tid : string) (st : ResearchThreadState)
    (node : string) (parent : option nat) :
  ids_below s ->
  get (snd (save s tid st node parent)) tid None = Some (fst (save s tid st node parent)) /\
  get (snd (save s tid st node parent)) tid
      (Some (checkpoint_id (fst (save s tid st node parent))))
    = Some (fst (save s tid st node parent)).
Proof.
  intros Hs. split.
  - unfold get, save; cbn. apply newest_snoc_same; [reflexivity | exact Hs].
  - unfold get, save; cbn. rewrite find_app_None.
    + cbn. rewrite String.eqb_refl, Nat.eqb_refl. reflexivity.
    + eapply Forall_impl; [exact Hs|]. intros c Hc.
      apply andb_false_iff. right. apply Nat.eqb_neq. cbn in Hc. lia.
Qed.

Lemma get_id_run (rs : list SaveReq) (s : Store) (tid : string) (i : nat) (c : Checkpoint) :
  get s tid (Some i) = Some c -> get (run rs s) tid (Some i) = Some c.
Proof.
  intros H. destruct (run_extends rs s) as [ext E].
  unfold get in *. rewrite E. apply find_app_Some, H.
Qed.

(** C5: the store is append-only and [get] without an id follows save order.
    On any store reached by a sequence of saves [rs0]: further saves [rs]
    keep every checkpoint retrievable by id with the same contents and only
    add rows after the existing ones; and once a checkpoint [cp] is saved for
    [tid], whatever parent link it or any other checkpoint carries, [get tid]
    without an id returns [cp] (also by its id) until the next save for [tid]. *)
Theorem checkpoint_store_append_only (rs0 rs : list SaveReq) (tid : string) :
  (forall i c, get (run rs0 empty_store) tid (Some i) = Some c ->
               get (run rs (run rs0 empty_store)) tid (Some i) = Some c) /\
  (exists ext, checkpoints (run rs (run rs0 empty_store))
               = checkpoints (run rs0 empty_store) ++ ext) /\
  (forall r rs', req_thread r = tid -> Forall (fun r' => req_thread r' <> tid) rs' ->
     let cp := fst (save (run rs0 empty_store) tid (req_state r) (req_node r) (req_parent r)) in
     get (run (r :: rs') (run rs0 empty_store)) tid None = Some cp /\
     get (run (r :: rs') (run rs0 empty_store)) tid (Some (checkpoint_id cp)) = Some cp).
Proof.
  split; [intros i c; apply get_id_run|]. split; [apply run_extends|].
  intros r rs' Hr Hrs' cp.
  pose proof (save_latest (run rs0 empty_store) tid (req_state r) (req_node r) (req_parent r)
                (reachable_ids_below rs0)) as [L1 L2].
  cbn [run fold_left].
  change (fold_left save_req rs' (save_req (run rs0 empty_store) r))
    with (run rs' (save_req (run rs0 empty_store) r)).
  assert (E : save_req (run rs0 empty_store) r
              = snd (save (run rs0 empty_store) tid (req_state r) (req_node r) (req_parent r)))
    by (unfold save_req; now rewrite Hr).
  rewrite E. subst cp. split.
  - rewrite run_other_threads by exact Hrs'. exact L1.
  - apply get_id_run. exact L2.
Qed.

End CheckpointStoreFacts.

Module HITLFacts.
Import Time ResultMerger State CheckpointStore HITL CheckpointStoreFacts.
Local Open Scope stdpp_scope.

(** C4 (amended): [can_resume] applies its checks in the listed order, the
    first one that holds giving the reason; and after
    [inject_approval(approved=true)] on a thread with a checkpoint, the call
    returns true exactly when [revision_count < max_revisions] and the error
    field is unset: the approval clears [awaiting_approval] but not [error]. *)
Theorem can_resume_checks (rs0 : list SaveReq) (tid : string) (max_revisions : Z) :
  (get (run rs0 empty_store) tid None = None ->
   can_resume (run rs0 empty_store) tid max_revisions = (false, "No checkpoint found")) /\
  (forall cp, get (run rs0 empty_store) tid None = Some cp ->
     let st := cp_state cp in
     (awaiting_approval st = true ->
        can_resume (run rs0 empty_store) tid max_revisions = (false, "Awaiting approval")) /\
     (awaiting_approval st = false -> max_revisions <= revision_count st ->
        can_resume (run rs0 empty_store) tid max_revisions
        = (false, "Maximum revisions reached")) /\
     (awaiting_approval st = false -> revision_count st < max_revisions -> error st <> None ->
        can_resume (run rs0 empty_store) tid max_revisions = (false, "Error in state")) /\
     (awaiting_approval st = false -> revision_count st < max_revisions -> error st = None ->
        fst (can_resume (run rs0 empty_store) tid max_revisions) = true)) /\
  (forall cp fb, get (run rs0 empty_store) tid None = Some cp ->
     exists st' s', inject_approval (run rs0 empty_store) tid true fb = Some (st', s') /\
       awaiting_approval st' = false /\ user_feedback st' = fb /\
       error st' = error (cp_state cp) /\
       (fst (can_resume s' tid max_revisions) = true <->
          revision_count (cp_state cp) < max_revisions /\ error (cp_state cp) = None) /\
       (max_revisions <= revision_count (cp_state cp) ->
          can_resume s' tid max_revisions = (false, "Maximum revisions reached")) /\
       (revision_count (cp_state cp) < max_revisions -> error (cp_state cp) <> None ->
          can_resume s' tid max_revisions = (false, "Error in state"))).
Proof.
  split; [|split].
  - intros H. unfold can_resume. rewrite H. reflexivity.
  - intros cp H st. unfold can_resume. rewrite H. fold st.
    repeat split; intros Ha; rewrite ?Ha.
    + reflexivity.
    + intros Hm. apply Z.leb_le in Hm. rewrite Hm. reflexivity.
    + intros Hm He. apply Z.leb_gt in Hm. rewrite Hm.
      destruct (error st); [reflexivity | contradiction].
    + intros Hm He. apply Z.leb_gt in Hm. rewrite Hm, He. reflexivity.
  - intros cp fb H.
    set (st := cp_state cp).
    set (st' := mkState (task st) (perspectives st) (plan st) (research_data st)
               (source_map st) (draft_sections st) (final_report st) (critique st)
               (revision_count st) (visit_history st) false fb (error st)).
    pose proof (save_latest (run rs0 empty_store) tid st' (cp_node cp)
                  (Some (checkpoint_id cp)) (reachable_ids_below rs0)) as [L _].
    exists st', (snd (save (run rs0 empty_store) tid st' (cp_node cp) (Some (checkpoint_id cp)))).
    unfold inject_approval. rewrite H. cbn [mbind option_bind].
    split; [reflexivity|]. split; [reflexivity|]. split; [reflexivity|]. split; [reflexivity|].
    unfold can_resume. rewrite L. cbn [fst save cp_state].
    subst st'; cbn [awaiting_approval revision_count error].
    destruct (Z.leb_spec max_revisions (revision_count st)) as [Hm|Hm].
    + split; [|split].
      * split; [discriminate | intros [? _]; lia].
      * reflexivity.
      * intros; lia.
    + destruct (error st) as [e|]; cbn.
      * split; [|split]; [split; [discriminate | intros [_ ?]; discriminate] | intros; lia | reflexivity].
      * split; [|split]; [tauto | intros; lia | intros _ Hn; contradiction].
Qed.

(** C4 counterexample: a thread saved for approval whose state carries an
    error (revision 0, cap 3); after [inject_approval(approved=true)]
    [can_resume] still answers false, with "Error in state". *)
Lemma can_resume_error_after_approval :
  match inject_approval
          (snd (save_checkpoint_with_approval empty_store "thread_123" errored_state
                  "planner_approval")) "thread_123" true (Some "looks good") with
  | Some (st', s') =>
      awaiting_approval st' = false /\ revision_count st' < 3 /\
      can_resume s' "thread_123" 3 = (false, "Error in state")
  | None => False
  end.
Proof. vm_compute. split; [reflexivity|]. split; [reflexivity | reflexivity]. Qed.

End HITLFacts.

Module BreakerFacts.
Import Breaker.
Local Open Scope stdpp_scope.

Lemma record_failures_app (cfg : BreakerConfig) (a b : list Z) (st : BreakerState) :
  record_failures cfg (a ++ b) st = record_failures cfg b (record_failures cfg a st).
Proof. unfold record_failures. apply fold_left_app. Qed.

Lemma record_failures_closed (cfg : BreakerConfig) (ts : list Z) (n : nat) :
  (n + length ts <= failure_threshold cfg)%nat ->
  record_failures cfg ts (Closed n) = Closed (n + length ts).
Proof.
  revert n. induction ts as [|t ts IH]; intros n H;
    unfold record_failures; cbn [fold_left record_outcome].
  - now rewrite Nat.add_0_r.
  - cbn [length] in H. destruct (Nat.ltb_spec (failure_threshold cfg) (S n)) as [Hl|Hl]; [lia|].
    change (fold_left (fun s t => record_outcome cfg t false s) ts (Closed (S n)))
      with (record_failures cfg ts (Closed (S n))).
    rewrite IH by lia. f_equal. cbn [length]. lia.
Qed.

Lemma record_failures_open (cfg : BreakerConfig) (ts : list Z) (t : Z) :
  record_failures cfg ts (Open t) = Open t.
Proof. induction ts as [|t' ts IH]; [reflexivity|]. exact IH. Qed.

Lemma run_events_open (cfg : BreakerConfig) (t : Z) (evs : list Event) :
  Forall (fun e => event_time e < t + recovery_timeout cfg) evs ->
  Forall (fun b => b = false) (fst (run_events cfg evs (Open t))) /\
  snd (run_events cfg evs (Open t)) = Open t.
Proof.
  induction 1 as [|e evs He _ [IH1 IH2]]; [split; [constructor | reflexivity]|].
  destruct e as [n|n ok]; cbn in He |- *.
  - destruct (Z.leb_spec (t + recovery_timeout cfg) n) as [Hl|Hl]; [lia|].
    destruct (run_events cfg evs (Open t)) as [oks st2]. cbn in IH1, IH2 |- *.
    split; [constructor; [reflexivity | exact IH1] | exact IH2].
  - split; assumption.
Qed.

Lemma run_admits_half_open (cfg : BreakerConfig) (ts : list Z) :
  run_events cfg (map EvAdmit ts) (HalfOpen true) = (map (fun _ => false) ts, HalfOpen true).
Proof. induction ts as [|t ts IH]; cbn; [reflexivity|]. rewrite IH. reflexivity. Qed.

(** C8: the per-target breaker state machine.  From closed, failures up to
    the threshold N keep it closed (and admitting); the failure that makes
    the count exceed N opens it, and further failures keep it open.  While
    open, every admit before the cool-down has elapsed answers false.  After
    the cool-down one admit answers true (the trial, half-open) and every
    further admit answers false until the trial's outcome is recorded; a
    successful trial closes the breaker (admits answer true again), a failed
    one reopens it.  A success while closed resets the count, and updates for
    one target leave every other target's state as it was. *)
Theorem circuit_breaker_state_machine (cfg : BreakerConfig) :
  (forall ts, (length ts <= failure_threshold cfg)%nat ->
     record_failures cfg ts (Closed 0) = Closed (length ts) /\
     forall now, fst (admit_call cfg now (record_failures cfg ts (Closed 0))) = true) /\
  (forall ts t ts', length ts = failure_threshold cfg ->
     record_failures cfg (ts ++ t :: ts') (Closed 0) = Open t) /\
  (forall n now, record_outcome cfg now true (Closed n) = Closed 0) /\
  (forall t evs, Forall (fun e => event_time e < t + recovery_timeout cfg) evs ->
     Forall (fun b => b = false) (fst (run_events cfg evs (Open t))) /\
     snd (run_events cfg evs (Open t)) = Open t) /\
  (forall t now ts, t + recovery_timeout cfg <= now ->
     admit_call cfg now (Open t) = (true, HalfOpen true) /\
     run_events cfg (map EvAdmit ts) (HalfOpen true) = (map (fun _ => false) ts, HalfOpen true)) /\
  (forall now now', record_outcome cfg now true (HalfOpen true) = Closed 0 /\
     admit_call cfg now' (Closed 0) = (true, Closed 0)) /\
  (forall now, record_outcome cfg now false (HalfOpen true) = Open now) /\
  (forall reg d d' now ok, d <> d' ->
     state_of (snd (admit_target cfg now reg d)) d' = state_of reg d' /\
     state_of (record_target cfg now ok reg d) d' = state_of reg d' /\
     state_of (record_target cfg now ok reg d) d = record_outcome cfg now ok (state_of reg d)).
Proof.
  split; [|split; [|split; [|split; [|split; [|split; [|split]]]]]].
  - intros ts H. rewrite record_failures_closed by (cbn; lia). split; [reflexivity|].
    intros now. reflexivity.
  - intros ts t ts' H. rewrite record_failures_app.
    rewrite record_failures_closed by (cbn; lia). cbn [Nat.add].
    unfold record_failures at 1; cbn [fold_left record_outcome].
    destruct (Nat.ltb_spec (failure_threshold cfg) (S (length ts))) as [_|Hl]; [|lia].
    apply record_failures_open.
  - reflexivity.
  - apply run_events_open.
  - intros t now ts H. split.
    + cbn. destruct (Z.leb_spec (t + recovery_timeout cfg) now); [reflexivity | lia].
    + apply run_admits_half_open.
  - intros now now'. split; reflexivity.
  - reflexivity.
  - intros reg d d' now ok Hd. unfold admit_target, record_target, state_of.
    destruct (admit_call cfg now (default (Closed 0) (reg !! d))) as [b st].
    cbn [snd]. rewrite !lookup_insert_ne by exact Hd.
    split; [reflexivity|]. split; [reflexivity|]. rewrite lookup_insert_eq. reflexivity.
Qed.

End BreakerFacts.

Module SearchFacts.
Import Breaker Search.
Local Open Scope stdpp_scope.

Lemma try_fallbacks_unavailable (ps : list Provider) (q : string) :
  try_fallbacks ps q = SearchUnavailable <-> Forall (fun p => provider_call p q = None) ps.
Proof.
  induction ps as [|p ps IH]; cbn; [split; [constructor | reflexivity]|].
  destruct (provider_call p q) as [rs|] eqn:E.
  - split; [discriminate|]. intros H. inversion H; congruence.
  - rewrite IH. split; [intros H; constructor; assumption | intros H; inversion H; assumption].
Qed.

Lemma try_fallbacks_found (ps : list Provider) (q : string) (rs : list SearchResult) :
  try_fallbacks ps q = Found rs <->
  exists pre p post, ps = pre ++ p :: post /\
    Forall (fun p => provider_call p q = None) pre /\ provider_call p q = Some rs.
Proof.
  induction ps as [|p0 ps IH]; cbn.
  - split; [discriminate|]. intros (pre & p & post & E & _). destruct pre; discriminate.
  - destruct (provider_call p0 q) as [rs0|] eqn:E0.
    + split.
      * intros H. injection H as <-. exists [], p0, ps. split; [reflexivity|].
        split; [constructor | exact E0].
      * intros (pre & p & post & E & Hpre & Hp). destruct pre as [|x pre].
        -- injection E as <- <-. congruence.
        -- injection E as <- _. inversion Hpre; congruence.
    + rewrite IH. split.
      * intros (pre & p & post & E & Hpre & Hp). exists (p0 :: pre), p, post.
        split; [now rewrite E|]. split; [constructor; assumption | exact Hp].
      * intros (pre & p & post & E & Hpre & Hp). destruct pre as [|x pre].
        -- injection E as <- <-. congruence.
        -- injection E as <- E. inversion Hpre. exists pre, p, post. auto.
Qed.

Lemma search_outcome (cfg : BreakerConfig) (now : Z) (reg : Registry)
    (primary : Provider) (fallbacks : list Provider) (q : string) :
  fst (search cfg now reg primary fallbacks q)
  = match primary_attempt cfg now reg primary q with
    | Some rs => Found rs
    | None => try_fallbacks fallbacks q
    end.
Proof.
  unfold search, primary_attempt.
  destruct (admit_target cfg now reg (provider_domain primary)) as [ok reg1]. cbn [fst].
  destruct ok; [|reflexivity]. destruct (provider_call primary q); reflexivity.
Qed.

(** C7: [search] fails with [SearchUnavailable] exactly when the primary
    yields nothing (its breaker refuses it or its call fails) and every
    fallback fails; otherwise it returns the results of the first provider of
    the chain that succeeds.  In particular, with the primary's breaker open
    before its cool-down, a succeeding fallback's results are returned. *)
Theorem search_fallback_chain (cfg : BreakerConfig) (now : Z) (reg : Registry)
    (primary : Provider) (fallbacks : list Provider) (q : string) :
  (fst (search cfg now reg primary fallbacks q) = SearchUnavailable <->
     primary_attempt cfg now reg primary q = None /\
     Forall (fun p => provider_call p q = None) fallbacks) /\
  (forall rs, fst (search cfg now reg primary fallbacks q) = Found rs <->
     primary_attempt cfg now reg primary q = Some rs \/
     (primary_attempt cfg now reg primary q = None /\
      exists pre p post, fallbacks = pre ++ p :: post /\
        Forall (fun p => provider_call p q = None) pre /\ provider_call p q = Some rs)) /\
  (forall t pre p post rs,
     state_of reg (provider_domain primary) = Open t -> now < t + recovery_timeout cfg ->
     fallbacks = pre ++ p :: post ->
     Forall (fun p => provider_call p q = None) pre -> provider_call p q = Some rs ->
     fst (search cfg now reg primary fallbacks q) = Found rs).
Proof.
  rewrite !search_outcome. split; [|split].
  - destruct (primary_attempt cfg now reg primary q).
    + split; [discriminate | intros [H _]; discriminate].
    + rewrite try_fallbacks_unavailable. tauto.
  - intros rs. destruct (primary_attempt cfg now reg primary q) as [rs0|].
    + split.
      * intros H. injection H as ->. now left.
      * intros [H|[H _]]; [congruence | discriminate].
    + rewrite try_fallbacks_found. split.
      * intros H. right. split; [reflexivity | exact H].
      * intros [H|[_ H]]; [discriminate | exact H].
  - intros t pre p post rs Hst Ht E Hpre Hp.
    assert (Hn : primary_attempt cfg now reg primary q = None).
    { unfold primary_attempt, admit_target. rewrite Hst. cbn.
      destruct (Z.leb_spec (t + recovery_timeout cfg) now); [lia | reflexivity]. }
    rewrite Hn. apply try_fallbacks_found. exists pre, p, post. auto.
Qed.

End SearchFacts.

Module TranscriptFacts.
Import Transcript.
Local Open Scope stdpp_scope.

Section ParseFacts.
Variable parse_entries : string -> Completion (list Entry).
Variable parseFloat : string -> PrimFloat.float.
Variable js_trim : string -> string.
Variable decode_entity : string -> string.

Lemma fold_push_entry (es : list Entry) (acc : list TranscriptSegment) :
  fold_left (push_entry parseFloat js_trim decode_entity) es acc
  = acc ++ omap (entry_segment parseFloat js_trim decode_entity) es.
Proof.
  revert acc. induction es as [|e es IH]; intros acc; cbn.
  - symmetry. apply app_nil_r.
  - rewrite IH. unfold push_entry.
    destruct (entry_segment parseFloat js_trim decode_entity e); cbn;
      [now rewrite <- app_assoc | reflexivity].
Qed.

Lemma entry_segment_some (e : Entry) (seg : TranscriptSegment) :
  entry_segment parseFloat js_trim decode_entity e = Some seg ->
  exists s d c, start_attr e = Some s /\ s <> EmptyString /\
    dur_attr e = Some d /\ d <> EmptyString /\
    text_content e = Some c /\ js_trim c <> EmptyString /\
    startTime seg = parseFloat s /\
    endTime seg = PrimFloat.add (parseFloat s) (parseFloat d).
Proof.
  destruct e as [[s|] [d|] c]; unfold entry_segment; cbn [start_attr dur_attr text_content];
    try discriminate.
  destruct (String.eqb_spec s EmptyString) as [Hs|Hs]; [discriminate|].
  destruct (String.eqb_spec d EmptyString) as [Hd|Hd]; [discriminate|].
  destruct c as [c|]; cbn.
  - destruct (String.eqb_spec (js_trim c) EmptyString) as [Hc|Hc]; [discriminate|].
    intros H. injection H as <-. exists s, d, c. repeat split; assumption.
  - discriminate.
Qed.

Lemma elem_of_omap_inv {A B} (f : A -> option B) (l : list A) (y : B) :
  In y (omap f l) -> exists x, In x l /\ f x = Some y.
Proof.
  induction l as [|x l IH]; cbn; [contradiction|].
  destruct (f x) eqn:E; cbn.
  - intros [<-|H]; [exists x; auto|]. destruct (IH H) as (x' & ? & ?). exists x'; auto.
  - intros H. destruct (IH H) as (x' & ? & ?). exists x'; auto.
Qed.

(** C9: [parseTimedtext] always completes normally with a list of segments
    (empty when the parser throws), one per qualifying entry in document
    order; every segment comes from an entry with non-empty [start] and [dur]
    attributes and non-empty trimmed text, and its [endTime] is
    [parseFloat(start) + parseFloat(dur)], its [startTime] [parseFloat(start)]. *)
Theorem parseTimedtext_total_wellformed (xml : string) :
  exists segs,
    parseTimedtext parse_entries parseFloat js_trim decode_entity xml = Normal segs /\
    (forall entries, parse_entries xml = Normal entries ->
       segs = omap (entry_segment parseFloat js_trim decode_entity) entries) /\
    (forall exn, parse_entries xml = Thrown exn -> segs = []) /\
    (forall seg, In seg segs ->
       exists entries e s d c, parse_entries xml = Normal entries /\ In e entries /\
         start_attr e = Some s /\ s <> EmptyString /\
         dur_attr e = Some d /\ d <> EmptyString /\
         text_content e = Some c /\ js_trim c <> EmptyString /\
         startTime seg = parseFloat s /\
         endTime seg = PrimFloat.add (startTime seg) (parseFloat d)).
Proof.
  unfold parseTimedtext. destruct (parse_entries xml) as [es|exn] eqn:E.
  - exists (omap (entry_segment parseFloat js_trim decode_entity) es).
    rewrite fold_push_entry. split; [reflexivity|]. split; [|split].
    + intros entries H. injection H as ->. reflexivity.
    + discriminate.
    + intros seg Hin. apply elem_of_omap_inv in Hin as (e & He & Hs).
      apply entry_segment_some in Hs as (s & d & c & H1 & H2 & H3 & H4 & H5 & H6 & H7 & H8).
      exists es, e, s, d, c. rewrite H7. repeat split; assumption.
  - exists []. split; [reflexivity|]. split; [discriminate|]. split; [reflexivity|].
    intros seg [].
Qed.

End ParseFacts.

Lemma getCachedTranscript_result (st : Storage) (v : string) :
  getCachedTranscript st v
  = (Normal (match storage_reply st (storage_calls st) with
             | StorageOk => cached_value (transcriptCache st) v
             | StorageFailed _ => JSNull
             end), snd (storage_call st)).
Proof.
  unfold getCachedTranscript, storage_get, storage_call. cbn.
  destruct (storage_reply st (storage_calls st)); reflexivity.
Qed.

Lemma cacheTranscript_result (st : Storage) (t : TranscriptData) :
  cacheTranscript st t
  = (Normal tt,
     match storage_reply st (storage_calls st), storage_reply st (S (storage_calls st)) with
     | StorageOk, StorageOk =>
         mkStorage (Some (stored_value <$> js_set (default ∅ (transcriptCache st)) (videoId t)
                                                  (transcript_value t)))
                   (S (S (storage_calls st))) (storage_reply st)
     | StorageOk, StorageFailed _ =>
         mkStorage (transcriptCache st) (S (S (storage_calls st))) (storage_reply st)
     | StorageFailed _, _ => mkStorage (transcriptCache st) (S (storage_calls st)) (storage_reply st)
     end).
Proof.
  unfold cacheTranscript, storage_get, storage_set, storage_call. cbn.
  destruct (storage_reply st (storage_calls st)); cbn; [|reflexivity].
  destruct (storage_reply st (S (storage_calls st))); reflexivity.
Qed.

Lemma stored_number_some (x : PrimFloat.float) :
  stored_number (Some x) = Some x <-> PrimFloat.is_finite x = true.
Proof. cbn. destruct (PrimFloat.is_finite x); split; congruence. Qed.

Lemma stored_segments_exact (segs : list TranscriptSegment) :
  map stored_segment (map segment_value segs) = map segment_value segs <->
  Forall (fun s => PrimFloat.is_finite (startTime s) = true /\
                   PrimFloat.is_finite (endTime s) = true) segs.
Proof.
  induction segs as [|sg segs IH]; cbn [map]; [split; constructor|].
  rewrite Forall_cons_iff, <- IH, <- !stored_number_some. unfold stored_segment, segment_value.
  cbn [sv_startTime sv_endTime sv_text]. split.
  - intros H. injection H as H1 H2 H3. auto.
  - intros [[H1 H2] H3]. rewrite H1, H2, H3. reflexivity.
Qed.

Lemma stored_copy_exact (t : TranscriptData) : stored_copy t = transcript_value t <-> finite_times t.
Proof.
  unfold stored_copy, stored_value, transcript_value, finite_times. cbn.
  rewrite <- stored_segments_exact. split.
  - intros H. injection H as H. exact H.
  - intros H. rewrite H. reflexivity.
Qed.

Lemma cached_value_lookup (c1 c2 : option (gmap string TranscriptValue)) (v : string) :
  default ∅ c1 !! v = default ∅ c2 !! v -> cached_value c1 v = cached_value c2 v.
Proof. intros H. unfold cached_value, js_get. rewrite H. reflexivity. Qed.

(** C10 (as the code behaves): [cacheTranscript] never throws, and when one
    of its storage calls fails it leaves the stored cache as it was;
    [getCachedTranscript] never throws either: it answers [null] when its
    read fails and [cache[videoId] || null] otherwise.  After a write that
    succeeds, the id of the transcript reads back as the stored copy of the
    transcript, which is the transcript itself exactly when all its times
    are finite numbers; every other id reads as before; an id with no entry
    reads as [null] only when it is not a name inherited from
    [Object.prototype] ([constructor], [toString], ...): for those the
    inherited value is the answer; and a transcript whose id is
    [__proto__] is never stored, so that its id reads as the inherited
    prototype object. *)
Theorem transcript_cache_behaviour :
  (forall st t, fst (cacheTranscript st t) = Normal tt) /\
  (forall st t, storage_reply st (storage_calls st) <> StorageOk \/
                storage_reply st (S (storage_calls st)) <> StorageOk ->
     transcriptCache (snd (cacheTranscript st t)) = transcriptCache st) /\
  (forall st v, fst (getCachedTranscript st v)
     = Normal (match storage_reply st (storage_calls st) with
               | StorageOk => cached_value (transcriptCache st) v
               | StorageFailed _ => JSNull
               end)) /\
  (forall st t, storage_reply st (storage_calls st) = StorageOk ->
     storage_reply st (S (storage_calls st)) = StorageOk -> videoId t <> "__proto__"%string ->
     cached_value (transcriptCache (snd (cacheTranscript st t))) (videoId t)
     = JSTranscript (stored_copy t)) /\
  (forall t, stored_copy t = transcript_value t <-> finite_times t) /\
  (forall st t v, stored_form (transcriptCache st) -> v <> videoId t ->
     cached_value (transcriptCache (snd (cacheTranscript st t))) v
     = cached_value (transcriptCache st) v) /\
  (forall stored v, default ∅ stored !! v = None ->
     cached_value stored v
     = if existsb (String.eqb v) object_prototype_props then JSInherited v else JSNull) /\
  (forall st t, videoId t = "__proto__"%string ->
     default ∅ (transcriptCache st) !! "__proto__"%string = None ->
     cached_value (transcriptCache (snd (cacheTranscript st t))) "__proto__"
     = JSInherited "__proto__").
Proof.
  split; [|split; [|split; [|split; [|split; [|split; [|split]]]]]].
  - intros st t. rewrite cacheTranscript_result. reflexivity.
  - intros st t H. rewrite cacheTranscript_result. cbn [snd].
    destruct (storage_reply st (storage_calls st)) as [|e1]; [|reflexivity].
    destruct (storage_reply st (S (storage_calls st))) as [|e2]; [|reflexivity].
    destruct H as [H|H]; contradiction.
  - intros st v. rewrite getCachedTranscript_result. reflexivity.
  - intros st t H1 H2 H3. rewrite cacheTranscript_result, H1, H2. cbn [snd transcriptCache].
    unfold cached_value, js_get, js_set. cbn [default from_option id].
    apply String.eqb_neq in H3. rewrite H3, lookup_fmap, lookup_insert_eq. reflexivity.
  - exact stored_copy_exact.
  - intros st t v Hs Hv. rewrite cacheTranscript_result.
    destruct (storage_reply st (storage_calls st)) as [|e1]; [|reflexivity].
    destruct (storage_reply st (S (storage_calls st))) as [|e2]; [|reflexivity].
    apply cached_value_lookup. cbn [snd transcriptCache default from_option id]. rewrite lookup_fmap.
    assert (E : js_set (default ∅ (transcriptCache st)) (videoId t) (transcript_value t) !! v
                = default ∅ (transcriptCache st) !! v).
    { unfold js_set. destruct (String.eqb (videoId t) "__proto__"); [reflexivity|].
      apply lookup_insert_ne. congruence. }
    rewrite E. destruct (default ∅ (transcriptCache st) !! v) as [x|] eqn:Ex; [|reflexivity].
    cbn. rewrite (Hs v x Ex). reflexivity.
  - intros stored v H. unfold cached_value, js_get. rewrite H.
    destruct (existsb (String.eqb v) object_prototype_props); reflexivity.
  - intros st t H E. rewrite cacheTranscript_result.
    assert (Hc : cached_value (transcriptCache st) "__proto__" = JSInherited "__proto__").
    { unfold cached_value, js_get. rewrite E. reflexivity. }
    destruct (storage_reply st (storage_calls st)) as [|e1]; [|exact Hc].
    destruct (storage_reply st (S (storage_calls st))) as [|e2]; [|exact Hc].
    unfold cached_value, js_get, js_set. cbn [snd transcriptCache default from_option id]. rewrite H. cbn.
    rewrite lookup_fmap, E. reflexivity.
Qed.

(** C10 counterexample: with every storage call succeeding,
    [getCachedTranscript("constructor")] on an empty cache (an
    eleven-character id of YouTube's shape) answers the inherited [Object]
    constructor, not [null]; after caching a transcript whose id is
    [__proto__], reading that id does not give the transcript back; and a
    transcript with a [NaN] start time (what [parseFloat] gives for a
    [start] attribute that is not a number) reads back without that time,
    not as the transcript cached. *)
Lemma transcript_cache_failing_inputs :
  fst (getCachedTranscript (mkStorage None 0 (fun _ => StorageOk)) "constructor")
  = Normal (JSInherited "constructor") /\
  fst (getCachedTranscript
         (snd (cacheTranscript (mkStorage None 0 (fun _ => StorageOk))
                 (mkTranscriptData "__proto__" [] "en"))) "__proto__")
  = Normal (JSInherited "__proto__") /\
  fst (getCachedTranscript
         (snd (cacheTranscript (mkStorage None 0 (fun _ => StorageOk))
                 (mkTranscriptData "dQw4w9WgXcQ"
                    [mkTranscriptSegment PrimFloat.nan PrimFloat.nan "Hello"] "English")))
         "dQw4w9WgXcQ")
  <> Normal (JSTranscript (transcript_value
               (mkTranscriptData "dQw4w9WgXcQ"
                  [mkTranscriptSegment PrimFloat.nan PrimFloat.nan "Hello"] "English"))).
Proof.
  split; [reflexivity|]. split; [reflexivity|]. vm_compute. discriminate.
Qed.



End TranscriptFacts.

Module TranscriptFetchFacts.
Import Transcript TranscriptFetch TranscriptFacts.

Lemma str_append_cons (c : ascii) (a b : string) :
  String.append (String c a) b = String c (String.append a b).
Proof. reflexivity. Qed.

Lemma str_append_nil (b : string) : String.append EmptyString b = b.
Proof. reflexivity. Qed.

Lemma str_append_assoc (a b c : string) :
  String.append (String.append a b) c = String.append a (String.append b c).
Proof.
  induction a as [|x a IH]; [reflexivity|].
  change (String x (String.append (String.append a b) c) = String x (String.append a (String.append b c))).
  rewrite IH. reflexivity.
Qed.

Lemma split_semicolon_spec (s body after : string) :
  split_semicolon s = Some (body, after) -> s = String.append body (String ";"%char after).
Proof.
  revert body after. induction s as [|c s IH]; intros body after; cbn; [discriminate|].
  destruct (Ascii.eqb_spec c ";"%char) as [->|Hc].
  - intros H. injection H as <- <-. reflexivity.
  - destruct (split_semicolon s) as [[b a]|]; cbn; [|discriminate].
    intros H. injection H as <- <-. rewrite str_append_cons. f_equal. apply IH. reflexivity.
Qed.

Lemma str_length_append (a b : string) :
  String.length (String.append a b) = (String.length a + String.length b)%nat.
Proof.
  induction a as [|c a IH]; [reflexivity|].
  rewrite str_append_cons. cbn [String.length]. rewrite IH. reflexivity.
Qed.

Lemma replace_entities_fuel (decode : string -> string) (fuel : nat) :
  forall s fuel', (String.length s <= fuel)%nat -> (fuel <= fuel')%nat ->
  replace_entities decode fuel' s = replace_entities decode fuel s.
Proof.
  induction fuel as [|fuel IH]; intros s fuel' Hs Hf.
  - destruct s; [|cbn in Hs; lia]. destruct fuel'; reflexivity.
  - destruct fuel' as [|fuel']; [lia|]. destruct s as [|c rest]; [reflexivity|].
    cbn in Hs. cbn [replace_entities].
    destruct (Ascii.eqb c "&"%char); [|rewrite (IH rest fuel') by lia; reflexivity].
    destruct (split_semicolon rest) as [[body after]|] eqn:E;
      [|rewrite (IH rest fuel') by lia; reflexivity].
    destruct (String.eqb body EmptyString); [rewrite (IH rest fuel') by lia; reflexivity|].
    apply split_semicolon_spec in E.
    assert (Hl : (String.length after <= fuel)%nat).
    { rewrite E, str_length_append in Hs. cbn in Hs. lia. }
    rewrite (IH after fuel') by lia. reflexivity.
Qed.

Lemma replace_entities_plain (decode : string -> string) (a r : string) (fuel : nat) :
  ~ In "&"%char (list_ascii_of_string a) ->
  replace_entities decode (String.length a + fuel) (String.append a r)
  = String.append a (replace_entities decode fuel r).
Proof.
  induction a as [|c a IH]; intros Ha; [reflexivity|].
  cbn [String.length Nat.add]. rewrite str_append_cons. cbn [replace_entities].
  assert (Hc : Ascii.eqb c "&"%char = false).
  { apply Ascii.eqb_neq. intros ->. apply Ha. left. reflexivity. }
  rewrite Hc, IH; [reflexivity|]. intros H. apply Ha. right. exact H.
Qed.

Lemma split_semicolon_at (b c : string) :
  ~ In ";"%char (list_ascii_of_string b) ->
  split_semicolon (String.append b (String ";"%char c)) = Some (b, c).
Proof.
  induction b as [|x b IH]; intros Hb; [reflexivity|].
  rewrite str_append_cons. cbn [split_semicolon].
  assert (Hx : Ascii.eqb x ";"%char = false).
  { apply Ascii.eqb_neq. intros ->. apply Hb. left. reflexivity. }
  rewrite Hx, IH; [reflexivity|]. intros H. apply Hb. right. exact H.
Qed.

(** X1: [text.replace(/&[^;]+;/g, ...)] decodes the entities one at a time,
    from left to right, whatever the decoder: the text before the first
    [&] is kept, the first [&name;] ([name] non-empty and free of [;]) is
    replaced by what the decoder gives for it, and the scan goes on after
    its [;], so that the decoder's output is never scanned again (the real
    decoder turns [&amp;lt;] into [&lt;], not into [<]). *)
Theorem clean_text_entity_step (decode : string -> string) (a b c : string)
  (Ha : ~ In "&"%char (list_ascii_of_string a)) (Hb : b <> EmptyString)
  (Hsemi : ~ In ";"%char (list_ascii_of_string b)) :
  clean_text decode (String.append a (String "&"%char (String.append b (String ";"%char c))))
  = String.append a (String.append (decode (String "&"%char (String.append b ";")))
                                   (clean_text decode c)).
Proof.
  unfold clean_text. rewrite str_length_append. cbn [String.length].
  rewrite str_length_append. cbn [String.length].
  rewrite replace_entities_plain by exact Ha. f_equal.
  cbn [replace_entities Ascii.eqb Bool.eqb].
  rewrite split_semicolon_at by exact Hsemi.
  apply String.eqb_neq in Hb. rewrite Hb. f_equal.
  apply replace_entities_fuel; lia.
Qed.

Lemma clean_text_entity_step_witness :
  ~ In "&"%char (list_ascii_of_string "Tom ") /\ "amp"%string <> EmptyString /\
  ~ In ";"%char (list_ascii_of_string "amp") /\
  clean_text (entity_decode ContentScript.sample_page)
    (String.append "Tom " (String "&"%char (String.append "amp" (String ";"%char "lt; Jerry"))))
  = String.append "Tom "
      (String.append (entity_decode ContentScript.sample_page (String "&"%char (String.append "amp" ";")))
                     (clean_text (entity_decode ContentScript.sample_page) "lt; Jerry")).
Proof.
  assert (Ha : ~ In "&"%char (list_ascii_of_string "Tom ")).
  { cbn. intros [H|[H|[H|[H|[]]]]]; discriminate H. }
  assert (Hb : "amp"%string <> EmptyString) by discriminate.
  assert (Hs : ~ In ";"%char (list_ascii_of_string "amp")).
  { cbn. intros [H|[H|[H|[]]]]; discriminate H. }
  split; [exact Ha|]. split; [exact Hb|]. split; [exact Hs|].
  exact (clean_text_entity_step (entity_decode ContentScript.sample_page) _ _ _ Ha Hb Hs).
Defined.

Lemma substring_all (s : string) (m : nat) :
  (String.length s <= m)%nat -> String.substring 0 m s = s.
Proof.
  revert m. induction s as [|c s IH]; intros m Hm; [destruct m; reflexivity|].
  destruct m as [|m]; cbn in Hm; [lia|]. cbn. f_equal. apply IH. lia.
Qed.

Lemma prefix_split (p s : string) (m : nat) :
  String.prefix p s = true -> (String.length s <= String.length p + m)%nat ->
  s = String.append p (String.substring (String.length p) m s).
Proof.
  revert s. induction p as [|a p IH]; intros s Hp Hm.
  - rewrite str_append_nil. cbn. symmetry. apply substring_all. cbn in Hm. lia.
  - destruct s as [|b s]; [discriminate|]. cbn in Hp.
    destruct (Ascii.ascii_dec a b) as [<-|]; [|discriminate].
    rewrite str_append_cons. cbn. f_equal. apply IH; [exact Hp|]. cbn in Hm. lia.
Qed.

Lemma prefix_cons (a b : ascii) (p s : string) :
  String.prefix (String a p) (String b s)
  = if Ascii.ascii_dec a b then String.prefix p s else false.
Proof. reflexivity. Qed.

Lemma prefix_nil (s : string) : String.prefix EmptyString s = true.
Proof. destruct s; reflexivity. Qed.

Lemma includes_cons (c : ascii) (s pat : string) :
  includes (String c s) pat = String.prefix pat (String c s) || includes s pat.
Proof. reflexivity. Qed.

Lemma lazy_body_spec (s body after : string) :
  lazy_body s = Some (body, after) ->
  s = String.append body (String "}" after) /\ String.prefix ";" after = true /\
  no_line_terminator body = true /\ includes body "};" = false.
Proof.
  revert body after. induction s as [|c rest IH]; intros body after; cbn; [discriminate|].
  destruct (Ascii.eqb_spec c "}"%char) as [Hc|Hc];
    destruct (String.prefix ";" rest) eqn:Hp; cbn.
  - intros H. injection H as <- <-. subst c. auto.
  - subst c. cbn. destruct (lazy_body rest) as [[b a]|] eqn:E; cbn; [|discriminate].
    intros H. injection H as <- <-. destruct (IH b a eq_refl) as (Hr & Ha & Hb & Hi).
    split; [rewrite str_append_cons; congruence|]. split; [exact Ha|].
    split; [exact Hb|]. rewrite includes_cons, Hi. subst rest.
    destruct b as [|d b]; [reflexivity|]. rewrite str_append_cons, prefix_cons in Hp.
    rewrite !prefix_cons. destruct (Ascii.ascii_dec "}" "}"); [|reflexivity].
    destruct (Ascii.ascii_dec ";" d); [rewrite prefix_nil in Hp; discriminate|reflexivity].
  - destruct (is_line_terminator c) eqn:Hl; [discriminate|].
    destruct (lazy_body rest) as [[b a]|] eqn:E; cbn; [|discriminate].
    intros H. injection H as <- <-. destruct (IH b a eq_refl) as (Hr & Ha & Hb & Hi).
    split; [rewrite str_append_cons; congruence|]. split; [exact Ha|].
    split; [unfold no_line_terminator in *; cbn; rewrite Hl, Hb; reflexivity|].
    rewrite includes_cons, Hi, prefix_cons. destruct (Ascii.ascii_dec "}" c); [congruence|reflexivity].
  - destruct (is_line_terminator c) eqn:Hl; [discriminate|].
    destruct (lazy_body rest) as [[b a]|] eqn:E; cbn; [|discriminate].
    intros H. injection H as <- <-. destruct (IH b a eq_refl) as (Hr & Ha & Hb & Hi).
    split; [rewrite str_append_cons; congruence|]. split; [exact Ha|].
    split; [unfold no_line_terminator in *; cbn; rewrite Hl, Hb; reflexivity|].
    rewrite includes_cons, Hi, prefix_cons. destruct (Ascii.ascii_dec "}" c); [congruence|reflexivity].
Qed.

Lemma match_initial_data_unfold (s : string) :
  match_initial_data s
  = match initial_data_here s with
    | Some g => Some g
    | None => match s with EmptyString => None | String _ rest => match_initial_data rest end
    end.
Proof. destruct s; reflexivity. Qed.

Lemma match_initial_data_spec (s g : string) :
  match_initial_data s = Some g ->
  exists pre body after,
    s = String.append pre (String.append "var ytInitialData = {"
          (String.append body (String "}" after))) /\
    String.prefix ";" after = true /\
    g = String "{" (String.append body "}") /\
    no_line_terminator body = true /\ includes body "};" = false.
Proof.
  induction s as [|c rest IH]; rewrite match_initial_data_unfold.
  - unfold initial_data_here. cbn. discriminate.
  - destruct (initial_data_here (String c rest)) as [g'|] eqn:Eh.
    + intros H. injection H as <-. unfold initial_data_here in Eh.
      destruct (String.prefix yt_marker (String c rest)) eqn:Hp; [|discriminate].
      destruct (lazy_body _) as [[body after]|] eqn:El; [|discriminate].
      injection Eh as <-.
      destruct (lazy_body_spec _ _ _ El) as (Hs & Ha & Hb & Hi).
      exists EmptyString, body, after. split; [|auto].
      rewrite str_append_nil, <- Hs. apply prefix_split; [exact Hp | lia].
    + intros H. destruct (IH H) as (pre & body & after & Hs & Hrest).
      exists (String c pre), body, after. split; [|exact Hrest].
      rewrite str_append_cons. congruence.
Qed.

Lemma scan_scripts_spec (B : Browser) (scripts : list (option string)) :
  (forall d, scan_scripts B scripts = Some d ->
     exists pre txt post g,
       scripts = pre ++ Some txt :: post /\ Forall (script_skipped B) pre /\
       includes txt "var ytInitialData" = true /\
       match_initial_data txt = Some g /\ json_parse B g = Normal d) /\
  (scan_scripts B scripts = None -> Forall (script_skipped B) scripts).
Proof.
  induction scripts as [|[txt|] rest [IHs IHn]]; cbn.
  - split; [discriminate | constructor].
  - destruct (includes txt "var ytInitialData") eqn:Ei.
    + destruct (match_initial_data txt) as [g|] eqn:Em.
      * destruct (json_parse B g) as [d|exn] eqn:Ej.
        -- split; [|discriminate]. intros d' H. injection H as <-.
           exists [], txt, rest, g. auto.
        -- split.
           ++ intros d H. destruct (IHs d H) as (pre & t & post & g' & -> & Hf & Hrest).
              exists (Some txt :: pre), t, post, g'. split; [reflexivity|].
              split; [|exact Hrest]. constructor; [|exact Hf]. right; right. eauto.
           ++ intros H. constructor; [|exact (IHn H)]. right; right. eauto.
      * split.
        -- intros d H. destruct (IHs d H) as (pre & t & post & g' & -> & Hf & Hrest).
           exists (Some txt :: pre), t, post, g'. split; [reflexivity|].
           split; [|exact Hrest]. constructor; [|exact Hf]. right; left. exact Em.
        -- intros H. constructor; [|exact (IHn H)]. right; left. exact Em.
    + split.
      * intros d H. destruct (IHs d H) as (pre & t & post & g' & -> & Hf & Hrest).
        exists (Some txt :: pre), t, post, g'. split; [reflexivity|].
        split; [|exact Hrest]. constructor; [|exact Hf]. left. exact Ei.
      * intros H. constructor; [|exact (IHn H)]. left. exact Ei.
  - split.
    + intros d H. destruct (IHs d H) as (pre & t & post & g' & -> & Hf & Hrest).
      exists (None :: pre), t, post, g'. split; [reflexivity|].
      split; [|exact Hrest]. constructor; [exact I|exact Hf].
    + intros H. constructor; [exact I|exact (IHn H)].
Qed.

(** X4: [getYouTubeInitialData] answers the parse of the first script that
    mentions [var ytInitialData], matches the pattern and parses: every
    earlier script is skipped (no text, no mention, no match, or a parse
    error); the parsed text is [{], the shortest run of characters without a
    line terminator and without [};], and [}], found in the script right
    after [var ytInitialData = ] and followed by [;].  When it answers
    [null], every script was skipped. *)
Theorem getYouTubeInitialData_first_parsed (B : Browser) :
  (forall d, getYouTubeInitialData B = Some d ->
     exists pre txt post lead body after,
       script_texts B = pre ++ Some txt :: post /\ Forall (script_skipped B) pre /\
       txt = String.append lead (String.append "var ytInitialData = {"
               (String.append body (String "}" after))) /\
       String.prefix ";" after = true /\
       no_line_terminator body = true /\ includes body "};" = false /\
       json_parse B (String "{" (String.append body "}")) = Normal d) /\
  (getYouTubeInitialData B = None -> Forall (script_skipped B) (script_texts B)).
Proof.
  unfold getYouTubeInitialData.
  destruct (scan_scripts_spec B (script_texts B)) as [Hs Hn]. split; [|exact Hn].
  intros d H. destruct (Hs d H) as (pre & txt & post & g & Hl & Hf & _ & Hm & Hj).
  destruct (match_initial_data_spec _ _ Hm) as (lead & body & after & Ht & Ha & -> & Hb & Hi).
  exists pre, txt, post, lead, body, after. auto 8.
Qed.

Lemma entry_segment_text (pf : string -> PrimFloat.float) (trim decode : string -> string)
  (e : Entry) (seg : TranscriptSegment) :
  entry_segment pf trim decode e = Some seg ->
  exists c, text_content e = Some c /\ text seg = clean_text decode (trim c).
Proof.
  destruct e as [[s|] [d|] [c|]]; unfold entry_segment; cbn [start_attr dur_attr text_content];
    cbv zeta; try discriminate.
  - destruct (negb (String.eqb s "") && negb (String.eqb d "") && negb (String.eqb (trim c) ""));
      [|discriminate].
    intros H. injection H as <-. exists c. auto.
  - cbn [String.eqb negb]. rewrite Bool.andb_false_r. discriminate.
Qed.

(** X3: [fetchTimedtext]: a fetch that throws, a response that is not ok, or a
    body that cannot be read give []; otherwise the result is the segments
    of the qualifying entries of the fetched document, in order, or []
    when the parser throws.  Each segment's times and text come from one
    entry of the fetched document: [endTime] is [startTime + parseFloat(dur)]
    and the text is the trimmed text with its entities decoded. *)
Theorem fetchTimedtext_segments (B : Browser) (url : string) :
  (forall exn, fetch_url B url = Thrown exn -> fetchTimedtext B url = []) /\
  (forall body, fetch_url B url = Normal (false, body) -> fetchTimedtext B url = []) /\
  (forall exn, fetch_url B url = Normal (true, Thrown exn) -> fetchTimedtext B url = []) /\
  (forall xml exn, fetch_url B url = Normal (true, Normal xml) ->
     dom_entries B xml = Thrown exn -> fetchTimedtext B url = []) /\
  (forall xml entries, fetch_url B url = Normal (true, Normal xml) ->
     dom_entries B xml = Normal entries ->
     fetchTimedtext B url = omap (entry_segment (parse_float B) (str_trim B) (entity_decode B)) entries) /\
  (forall seg, In seg (fetchTimedtext B url) ->
     exists xml entries e s d c,
       fetch_url B url = Normal (true, Normal xml) /\ dom_entries B xml = Normal entries /\
       In e entries /\
       start_attr e = Some s /\ s <> EmptyString /\ dur_attr e = Some d /\ d <> EmptyString /\
       text_content e = Some c /\ str_trim B c <> EmptyString /\
       startTime seg = parse_float B s /\
       endTime seg = PrimFloat.add (startTime seg) (parse_float B d) /\
       text seg = clean_text (entity_decode B) (str_trim B c)).
Proof.
  unfold fetchTimedtext, parseTimedtext.
  split; [intros exn -> ; reflexivity|].
  split; [intros body -> ; reflexivity|].
  split; [intros exn -> ; reflexivity|].
  split; [intros xml exn -> -> ; reflexivity|].
  split; [intros xml entries -> -> ; apply TranscriptFacts.fold_push_entry|].
  intros seg.
  destruct (fetch_url B url) as [[[] [xml|exn]]|exn] eqn:Ef; try contradiction.
  destruct (dom_entries B xml) as [es|exn] eqn:Ed; [|contradiction].
  rewrite TranscriptFacts.fold_push_entry. cbn [app].
  intros Hin. apply TranscriptFacts.elem_of_omap_inv in Hin as (e & He & Hs).
  destruct (entry_segment_text _ _ _ _ _ Hs) as (c' & Hc' & Ht).
  apply TranscriptFacts.entry_segment_some in Hs as (s & d & c & H1 & H2 & H3 & H4 & H5 & H6 & H7 & H8).
  rewrite H5 in Hc'. injection Hc' as <-.
  exists xml, es, e, s, d, c. rewrite H8, H7. repeat split; assumption.
Qed.

Lemma find_spec {A} (f : A -> bool) (l : list A) :
  (forall x, List.find f l = Some x ->
     exists pre post, l = pre ++ x :: post /\ f x = true /\ Forall (fun y => f y = false) pre) /\
  (List.find f l = None -> Forall (fun y => f y = false) l).
Proof.
  induction l as [|a l [IHs IHn]]; cbn.
  - split; [discriminate | constructor].
  - destruct (f a) eqn:Ea.
    + split; [|discriminate]. intros x H. injection H as <-. exists [], l. auto.
    + split.
      * intros x H. destruct (IHs x H) as (pre & post & -> & Hx & Hf).
        exists (a :: pre), post. split; [reflexivity|]. split; [exact Hx|]. constructor; assumption.
      * intros H. constructor; [exact Ea | exact (IHn H)].
Qed.

(** X2: [fetchYouTubeTranscript]: no caption tracks give [null]; a transcript it
    returns belongs to the requested id, has at least one segment, holds
    exactly what [fetchTimedtext] gave for the selected track's URL, and is
    labelled with that track's name; the selected track is the first whose
    lower-cased name mentions [english], or the first track when none does,
    and it has a non-empty [baseUrl] that [new URL] accepted. *)
Theorem fetchYouTubeTranscript_result (B : Browser) (vid : string) :
  (getCaptionTracks B = [] -> fetchYouTubeTranscript B vid = None) /\
  (forall d, fetchYouTubeTranscript B vid = Some d ->
     exists pre sel post url,
       getCaptionTracks B = pre ++ sel :: post /\
       ((includes (str_lower B (simpleText sel)) "english" = true /\
         Forall (fun t => includes (str_lower B (simpleText t)) "english" = false) pre) \/
        (pre = [] /\
         Forall (fun t => includes (str_lower B (simpleText t)) "english" = false) (sel :: post))) /\
       baseUrl sel <> EmptyString /\ caption_url B (baseUrl sel) = Normal url /\
       d = mkTranscriptData vid (fetchTimedtext B url) (simpleText sel) /\
       fetchTimedtext B url <> []).
Proof.
  unfold fetchYouTubeTranscript. split; [intros ->; reflexivity|].
  intros d. destruct (getCaptionTracks B) as [|t0 rest] eqn:Et; [discriminate|]. cbv zeta.
  set (sel := select_track B t0 (t0 :: rest)).
  destruct (String.eqb_spec (baseUrl sel) EmptyString) as [|Hb]; [discriminate|].
  destruct (caption_url B (baseUrl sel)) as [url|exn] eqn:Eu; [|discriminate].
  destruct (fetchTimedtext B url) as [|seg segs] eqn:Es; [discriminate|].
  intros H. injection H as <-.
  destruct (find_spec (fun t => includes (str_lower B (simpleText t)) "english") (t0 :: rest))
    as [Hs Hn].
  unfold sel, select_track in *.
  destruct (List.find _ (t0 :: rest)) as [t|] eqn:Ef.
  - destruct (Hs t eq_refl) as (pre & post & Hl & Ht & Hf).
    exists pre, t, post, url. rewrite Es. repeat split; auto; discriminate.
  - exists [], t0, rest, url. rewrite Es. repeat split; auto; discriminate.
Qed.

End TranscriptFetchFacts.
Module ContentScriptFacts.
Import Transcript TranscriptFetch ContentScript TranscriptFetchFacts.

(** ** Video id and metadata *)

Lemma match_path_unfold (s : string) :
  match_path s
  = match path_alt1 s, path_alt2 s with
    | Some g, _ => Some (Some g, None)
    | None, Some g => Some (None, Some g)
    | None, None => match s with EmptyString => None | String _ rest => match_path rest end
    end.
Proof. destruct s; reflexivity. Qed.

Lemma match_path_nonempty (s : string) (o1 o2 : option string) :
  match_path s = Some (o1, o2) ->
  match o1 with
  | Some g => g <> EmptyString
  | None => exists g, o2 = Some g /\ g <> EmptyString
  end.
Proof.
  induction s as [|c rest IH]; rewrite match_path_unfold.
  - unfold path_alt1, path_alt2. cbn. discriminate.
  - destruct (path_alt1 (String c rest)) as [g|] eqn:E1.
    + intros H. injection H as <- <-. unfold path_alt1 in E1.
      destruct (String.prefix _ _); [|discriminate]. cbv zeta in E1.
      destruct (String.eqb_spec (take_until "&" (String.substring 9 (String.length (String c rest)) (String c rest))) EmptyString);
        [discriminate|]. injection E1 as <-. assumption.
    + destruct (path_alt2 (String c rest)) as [g|] eqn:E2; [|exact IH].
      intros H. injection H as <- <-. exists g. split; [reflexivity|].
      unfold path_alt2 in E2. destruct (String.prefix _ _); [|discriminate]. cbv zeta in E2.
      destruct (String.eqb_spec (take_until "?" (String.substring 8 (String.length (String c rest)) (String c rest))) EmptyString);
        [discriminate|]. injection E2 as <-. assumption.
Qed.

Lemma list_ascii_append (a b : string) :
  list_ascii_of_string (String.append a b) = list_ascii_of_string a ++ list_ascii_of_string b.
Proof.
  induction a as [|c a IH]; [reflexivity|]. rewrite str_append_cons. cbn. f_equal. exact IH.
Qed.

Lemma take_until_absent (c : ascii) (s : string) :
  ~ In c (list_ascii_of_string s) -> take_until c s = s.
Proof.
  induction s as [|d s IH]; cbn; [reflexivity|]. intros H.
  destruct (Ascii.eqb_spec d c) as [->|]; [tauto|]. f_equal. apply IH. tauto.
Qed.

Lemma match_path_no_query (s : string) (o1 o2 : option string) :
  ~ In "?"%char (list_ascii_of_string s) -> match_path s = Some (o1, o2) ->
  o1 = None /\ exists pre g, o2 = Some g /\ s = String.append pre (String.append "/shorts/" g).
Proof.
  induction s as [|c rest IH]; intros Hq; rewrite match_path_unfold.
  - unfold path_alt1, path_alt2. cbn. discriminate.
  - destruct (path_alt1 (String c rest)) as [g|] eqn:E1.
    + exfalso. unfold path_alt1 in E1.
      destruct (String.prefix "/watch?v=" (String c rest)) eqn:Hp; [|discriminate].
      apply Hq. rewrite (prefix_split _ _ (String.length (String c rest)) Hp ltac:(lia)).
      rewrite list_ascii_append. apply in_or_app. left. cbn. tauto.
    + destruct (path_alt2 (String c rest)) as [g|] eqn:E2.
      * intros H. injection H as <- <-. split; [reflexivity|].
        unfold path_alt2 in E2.
        destruct (String.prefix "/shorts/" (String c rest)) eqn:Hp; [|discriminate].
        pose proof (prefix_split _ _ (String.length (String c rest)) Hp ltac:(lia)) as Hs.
        cbv zeta in E2. rewrite take_until_absent in E2.
        -- destruct (String.eqb _ EmptyString); [discriminate|]. injection E2 as <-.
           exists EmptyString, (String.substring 8 (String.length (String c rest)) (String c rest)).
           split; [reflexivity|]. exact Hs.
        -- intros Hin. apply Hq. rewrite Hs, list_ascii_append. apply in_or_app. right. exact Hin.
      * intros H. destruct (IH ltac:(cbn in Hq; tauto) H) as (-> & pre & g & -> & Hs).
        split; [reflexivity|]. exists (String c pre), g. split; [reflexivity|].
        rewrite str_append_cons. congruence.
Qed.

Lemma getYouTubeVideoId_nonempty (B : Browser) (id : string) :
  getYouTubeVideoId B = Some id -> id <> EmptyString.
Proof.
  unfold getYouTubeVideoId.
    destruct (params_get _ "v") as [v|]; [destruct (String.eqb_spec v EmptyString)|].
  2: { intros H. injection H as <-. assumption. }
  all: destruct (match_path (location_pathname B)) as [[o1 o2]|] eqn:E; [|discriminate].
  all: pose proof (match_path_nonempty _ _ _ E) as Hn.
  all: destruct o1 as [g|]; [intros H; injection H as <-; exact Hn|].
  all: destruct Hn as (g & -> & Hg); intros H; injection H as <-; exact Hg.
Qed.

(** X5: [getYouTubeVideoId] never answers the empty string; a non-empty [v]
    parameter of the query wins over the path; and since a location's
    [pathname] holds no [?], the [/watch?v=] alternative of the path pattern
    never matches there: an id taken from the path is the whole rest of the
    path after a [/shorts/], further slashes included. *)
Theorem getYouTubeVideoId_result (B : Browser) :
  (forall id, getYouTubeVideoId B = Some id -> id <> EmptyString) /\
  (forall v, params_get (url_params B (location_search B)) "v" = Some v -> v <> EmptyString ->
     getYouTubeVideoId B = Some v) /\
  (~ In "?"%char (list_ascii_of_string (location_pathname B)) ->
   forall id, getYouTubeVideoId B = Some id ->
     params_get (url_params B (location_search B)) "v" = Some id \/
     exists pre, location_pathname B = String.append pre (String.append "/shorts/" id)).
Proof.
  unfold getYouTubeVideoId. split; [|split].
  - apply getYouTubeVideoId_nonempty.
  - intros v -> Hv. destruct (String.eqb_spec v EmptyString); [contradiction|reflexivity].
  - intros Hq id.
    destruct (params_get _ "v") as [v|]; [destruct (String.eqb_spec v EmptyString)|].
    2: { intros H. injection H as <-. left. reflexivity. }
    all: destruct (match_path (location_pathname B)) as [[o1 o2]|] eqn:E; [|discriminate].
    all: destruct (match_path_no_query _ _ _ Hq E) as (-> & pre & g & -> & Hs).
    all: intros H; injection H as <-; right; exists pre; exact Hs.
Qed.

Lemma getVideoMetadata_channel (B : Browser) : snd (getVideoMetadata B) <> EmptyString.
Proof.
  unfold getVideoMetadata. cbn [snd].
  destruct (channel_text B) as [t|]; [|discriminate].
  destruct (String.eqb_spec (str_trim B t) EmptyString); [discriminate|assumption].
Qed.

(** X6: [getVideoMetadataForElement] answers [null] exactly when no video id is
    found (its test for an empty id never fires, the id is never empty);
    otherwise the metadata carries that id, the element's current time and
    duration, and a channel that is never empty. *)
Theorem getVideoMetadataForElement_result (B : Browser) (ct dur : PrimFloat.float) :
  (getVideoMetadataForElement B ct dur = None <-> getYouTubeVideoId B = None) /\
  (forall m, getVideoMetadataForElement B ct dur = Some m ->
     getYouTubeVideoId B = Some (md_videoId m) /\ md_channel m <> EmptyString /\
     md_title m = fst (getVideoMetadata B) /\
     md_currentTime m = ct /\ md_duration m = dur).
Proof.
  pose proof (getVideoMetadata_channel B) as Hc.
  unfold getVideoMetadataForElement.
  destruct (getYouTubeVideoId B) as [vid|] eqn:E.
  - pose proof (getYouTubeVideoId_nonempty B vid E) as Hv.
    destruct (String.eqb_spec vid EmptyString); [contradiction|].
    destruct (getVideoMetadata B) as [title channel]. cbn in Hc.
    split; [split; discriminate|].
    intros m H. injection H as <-. cbn. auto.
  - split; [tauto|discriminate].
Qed.

(** ** Video tracking *)

Lemma handle_idle (B : Browser) (k : EventKind) (v : nat) (ct dur : PrimFloat.float) (sh : Shared) :
  k <> EvPlay -> handle B k v ct dur false sh = (false, sh).
Proof. destruct k; intros H; [exfalso; apply H; reflexivity | reflexivity ..]. Qed.

Lemma dispatch_idle (B : Browser) (k : EventKind) (v : nat) (ct dur : PrimFloat.float)
  (ls : list (nat * bool)) (sh : Shared) :
  k <> EvPlay -> (forall f, In (v, f) ls -> f = false) -> dispatch B k v ct dur ls sh = (ls, sh).
Proof.
  intros Hk. revert sh. induction ls as [|[w f] ls IH]; intros sh Hf; [reflexivity|].
  cbn [dispatch]. destruct (Nat.eqb_spec w v) as [->|].
  - rewrite (Hf f (or_introl eq_refl)), handle_idle by exact Hk. simpl.
    rewrite IH; [reflexivity|]. intros f' H. apply Hf. right. exact H.
  - simpl. rewrite IH; [reflexivity|]. intros f' H. apply Hf. right. exact H.
Qed.

Lemma fire_idle (B : Browser) (k : EventKind) (v : nat) (ct dur : PrimFloat.float) (s : CSState) :
  k <> EvPlay -> (forall f, In (v, f) (listeners s) -> f = false) -> fire B k v ct dur s = s.
Proof. intros Hk Hf. unfold fire. rewrite dispatch_idle by assumption. destruct s; reflexivity. Qed.

Lemma dispatch_fst (B : Browser) (k : EventKind) (v : nat) (ct dur : PrimFloat.float)
  (ls : list (nat * bool)) (sh : Shared) :
  map fst (fst (dispatch B k v ct dur ls sh)) = map fst ls.
Proof.
  revert sh. induction ls as [|[w f] ls IH]; intros sh; [reflexivity|]. cbn [dispatch].
  destruct (if Nat.eqb w v then handle B k v ct dur f sh else (f, sh)) as [f' sh1].
  specialize (IH sh1). destruct (dispatch B k v ct dur ls sh1) as [ls'' sh2].
  cbn in IH |- *. congruence.
Qed.

Lemma setup_shape (v : nat) (s : CSState) :
  listeners (setupVideoTracking v s) = listeners s ++ [(v, false)] /\
  storage (setupVideoTracking v s) = storage s /\ outbox (setupVideoTracking v s) = outbox s.
Proof. auto. Qed.

Lemma find_shape (videos : list nat) (s : CSState) :
  exists l, listeners (findAndTrackVideos videos s) = listeners s ++ map (fun w => (w, false)) l /\
    storage (findAndTrackVideos videos s) = storage s /\
    outbox (findAndTrackVideos videos s) = outbox s.
Proof.
  unfold findAndTrackVideos. revert s. induction videos as [|a videos IH]; intros s; cbn [fold_left].
  - exists []. rewrite app_nil_r. auto.
  - destruct (existsb (Nat.eqb a) (trackedVideos s)); [apply IH|].
    destruct (IH (setupVideoTracking a s)) as (l & H1 & H2 & H3).
    exists (a :: l). rewrite H1, H2, H3. cbn. rewrite <- app_assoc. auto.
Qed.

Lemma init_timeout_shape (B : Browser) (playing : list (nat * PrimFloat.float * PrimFloat.float))
  (s : CSState) :
  listeners (init_timeout B playing s) = listeners s /\
  trackedVideos (init_timeout B playing s) = trackedVideos s /\
  storage (init_timeout B playing s) = storage s /\
  exists ms, outbox (init_timeout B playing s) = outbox s ++ ms /\
    Forall (fun m => is_detected m = true) ms.
Proof.
  unfold init_timeout. revert s. induction playing as [|[[w ct] dur] playing IH]; intros s;
    cbn [fold_left].
  - split; [reflexivity|split; [reflexivity|split; [reflexivity|]]].
    exists []. rewrite app_nil_r. auto.
  - cbv beta iota. destruct (getVideoMetadataForElement B ct dur) as [m|].
    + destruct (IH (mkCSState (listeners s) (trackedVideos s) (storage s) (outbox s ++ [VideoDetected m])))
        as (H1 & H2 & H3 & ms & H4 & H5).
      cbn in H1, H2, H3, H4. repeat split; [assumption ..|].
      exists (VideoDetected m :: ms). rewrite H4, <- app_assoc. split; [reflexivity|].
      constructor; [reflexivity|exact H5].
    + apply IH.
Qed.

Lemma step_no_play (B : Browser) (st : Storage) (s : CSState) (e : PageEvent) :
  not_play e ->
  (forall p, In p (listeners s) -> snd p = false) /\ storage s = st /\
    Forall (fun m => is_detected m = true) (outbox s) ->
  (forall p, In p (listeners (step B s e)) -> snd p = false) /\ storage (step B s e) = st /\
    Forall (fun m => is_detected m = true) (outbox (step B s e)).
Proof.
  intros He (Hl & Hs & Ho). destruct e as [k v ct dur|n videos|v|playing]; cbn [step].
  - rewrite fire_idle; [auto| |].
    + intros ->. exact He.
    + intros f Hin. exact (Hl _ Hin).
  - destruct (Nat.eqb n 0); [auto|].
    destruct (find_shape videos s) as (l & H1 & H2 & H3). rewrite H1, H2, H3.
    split; [|auto]. intros p Hin. apply in_app_iff in Hin as [Hin|Hin]; [exact (Hl _ Hin)|].
    apply in_map_iff in Hin as (w & <- & _). reflexivity.
  - destruct (existsb (Nat.eqb v) (trackedVideos s)); [auto|].
    cbn. split; [|auto]. intros p Hin. apply in_app_iff in Hin as [Hin|[<-|[]]]; [exact (Hl _ Hin)|].
    reflexivity.
  - destruct (init_timeout_shape B playing s) as (H1 & _ & H3 & ms & H4 & H5).
    rewrite H1, H3, H4. split; [exact Hl|]. split; [exact Hs|]. apply Forall_app. auto.
Qed.

(** X7: Without a [play] event, the content script sends nothing but
    [VIDEO_DETECTED] (from the start-up check of playing videos): no
    [VIDEO_UPDATED], [VIDEO_STOPPED] or transcript message, whatever
    [timeupdate], [pause], [ended], mutation or start-up events arrive; and
    the transcript cache is left as it was. *)
Theorem no_play_only_detected (B : Browser) (videos : list nat) (st : Storage)
  (evs : list PageEvent) (Hevs : Forall not_play evs) :
  storage (run_page B videos st evs) = st /\
  Forall (fun m => is_detected m = true) (outbox (run_page B videos st evs)).
Proof.
  unfold run_page.
  assert (Hinv : (forall p, In p (listeners (findAndTrackVideos videos (initial_state st))) -> snd p = false) /\
     storage (findAndTrackVideos videos (initial_state st)) = st /\
     Forall (fun m => is_detected m = true) (outbox (findAndTrackVideos videos (initial_state st)))).
  { destruct (find_shape videos (initial_state st)) as (l & H1 & H2 & H3). rewrite H1, H2, H3.
    cbn. split; [|auto]. intros p Hin. apply in_map_iff in Hin as (w & <- & _). reflexivity. }
  revert Hinv. generalize (findAndTrackVideos videos (initial_state st)).
  induction Hevs as [|e evs He Hevs IH]; intros s Hinv; cbn [fold_left].
  - tauto.
  - apply IH. apply step_no_play; assumption.
Qed.

Lemma no_play_only_detected_witness :
  Forall not_play [InitTimeout [(1%nat, 0%float, 0%float)]; MediaEvent EvTimeUpdate 1 0 0;
                   MediaEvent EvEnded 1 0 0; ChildListMutation 1 [2%nat]] /\
  storage (run_page sample_page [1%nat] sample_storage
             [InitTimeout [(1%nat, 0%float, 0%float)]; MediaEvent EvTimeUpdate 1 0 0;
              MediaEvent EvEnded 1 0 0; ChildListMutation 1 [2%nat]]) = sample_storage /\
  Forall (fun m => is_detected m = true)
    (outbox (run_page sample_page [1%nat] sample_storage
               [InitTimeout [(1%nat, 0%float, 0%float)]; MediaEvent EvTimeUpdate 1 0 0;
                MediaEvent EvEnded 1 0 0; ChildListMutation 1 [2%nat]])).
Proof.
  assert (H : Forall not_play [InitTimeout [(1%nat, 0%float, 0%float)]; MediaEvent EvTimeUpdate 1 0 0;
                   MediaEvent EvEnded 1 0 0; ChildListMutation 1 [2%nat]])
    by (repeat constructor).
  split; [exact H | apply (no_play_only_detected sample_page [1%nat] sample_storage _ H)].
Defined.

Lemma play_transcript_msgs (B : Browser) (st : Storage) (vid : string) :
  Forall (fun m => is_detected m = false /\ not_error m = true) (fst (play_transcript B st vid)).
Proof.
  unfold play_transcript, play_try. rewrite TranscriptFacts.getCachedTranscript_result.
  cbv beta iota. destruct (js_truthy _); [repeat constructor|].
  destruct (fetchYouTubeTranscript B vid) as [t|]; [|repeat constructor].
  rewrite TranscriptFacts.cacheTranscript_result. repeat constructor.
Qed.

Lemma handle_appends (B : Browser) (k : EventKind) (v : nat) (ct dur : PrimFloat.float)
  (f : bool) (sh : Shared) :
  exists ms, sh_outbox (snd (handle B k v ct dur f sh)) = sh_outbox sh ++ ms /\
    Forall (fun m => not_error m = true) ms.
Proof.
  destruct k; cbn [handle].
  - destruct (getVideoMetadataForElement B ct dur) as [m|]; [|exists []; rewrite app_nil_r; auto].
    pose proof (play_transcript_msgs B (sh_storage sh) (md_videoId m)) as Hp.
    destruct (play_transcript B (sh_storage sh) (md_videoId m)) as [msgs st'].
    exists (VideoDetected m :: msgs). split; [reflexivity|]. constructor; [reflexivity|].
    eapply Forall_impl; [exact Hp|]. intros x [_ H]. exact H.
  - destruct f; [|exists []; rewrite app_nil_r; auto].
    destruct (getVideoMetadataForElement B ct dur) as [m|]; [|exists []; rewrite app_nil_r; auto].
    eexists. split; [reflexivity|]. repeat constructor.
  - destruct f; [|exists []; rewrite app_nil_r; auto].
    destruct (getVideoMetadataForElement B ct dur) as [m|]; [|exists []; rewrite app_nil_r; auto].
    eexists. split; [reflexivity|]. repeat constructor.
  - destruct f; [|exists []; rewrite app_nil_r; auto].
    destruct (getVideoMetadataForElement B ct dur) as [m|]; [|exists []; rewrite app_nil_r; auto].
    eexists. split; [reflexivity|]. repeat constructor.
Qed.

Lemma dispatch_appends (B : Browser) (k : EventKind) (v : nat) (ct dur : PrimFloat.float)
  (ls : list (nat * bool)) (sh : Shared) :
  exists ms, sh_outbox (snd (dispatch B k v ct dur ls sh)) = sh_outbox sh ++ ms /\
    Forall (fun m => not_error m = true) ms.
Proof.
  revert sh. induction ls as [|[w f] ls IH]; intros sh.
  - exists []. rewrite app_nil_r. auto.
  - cbn [dispatch].
    assert (H1 : exists ms, sh_outbox (snd (if Nat.eqb w v then handle B k v ct dur f sh else (f, sh)))
                            = sh_outbox sh ++ ms /\ Forall (fun m => not_error m = true) ms).
    { destruct (Nat.eqb w v); [apply handle_appends|]. exists []. rewrite app_nil_r. auto. }
    destruct (if Nat.eqb w v then handle B k v ct dur f sh else (f, sh)) as [f' sh1].
    destruct H1 as (ms1 & E1 & F1). destruct (IH sh1) as (ms2 & E2 & F2).
    destruct (dispatch B k v ct dur ls sh1) as [ls'' sh2]. cbn in E1, E2 |- *.
    exists (ms1 ++ ms2). rewrite E2, E1, app_assoc. split; [reflexivity|]. apply Forall_app. auto.
Qed.

Lemma step_appends (B : Browser) (s : CSState) (e : PageEvent) :
  exists ms, outbox (step B s e) = outbox s ++ ms /\ Forall (fun m => not_error m = true) ms.
Proof.
  destruct e as [k v ct dur|n videos|v|playing]; cbn [step].
  - unfold fire.
    destruct (dispatch_appends B k v ct dur (listeners s)
                (mkShared (trackedVideos s) (storage s) (outbox s))) as (ms & E & F).
    destruct (dispatch B k v ct dur _ _) as [ls sh]. cbn in E |- *. eauto.
  - destruct (Nat.eqb n 0); [exists []; rewrite app_nil_r; auto|].
    destruct (find_shape videos s) as (l & _ & _ & ->). exists []. rewrite app_nil_r. auto.
  - destruct (existsb (Nat.eqb v) (trackedVideos s)); exists []; rewrite app_nil_r; auto.
  - destruct (init_timeout_shape B playing s) as (_ & _ & _ & ms & E & F). rewrite E.
    exists ms. split; [reflexivity|]. eapply Forall_impl; [exact F|].
    intros [] H; cbn in H |- *; congruence.
Qed.

(** X8: The content script never sends [TRANSCRIPT_ERROR]: the [play]
    handler's [catch] is never reached, because every call in its [try]
    block settles normally.  [getCachedTranscript] answers [null] and
    [cacheTranscript] gives up silently when a storage call fails
    ([chrome.runtime.lastError], the quota, an invalidated extension
    context), [fetchYouTubeTranscript] gives [null] on any failure, and
    [sendMessageToBackground] swallows a failed send. *)
Theorem never_transcript_error (B : Browser) (videos : list nat) (st : Storage)
  (evs : list PageEvent) :
  Forall (fun m => not_error m = true) (outbox (run_page B videos st evs)).
Proof.
  unfold run_page.
  assert (H0 : Forall (fun m => not_error m = true) (outbox (findAndTrackVideos videos (initial_state st)))).
  { destruct (find_shape videos (initial_state st)) as (l & _ & _ & ->). constructor. }
  revert H0. generalize (findAndTrackVideos videos (initial_state st)).
  induction evs as [|e evs IH]; intros s H0; cbn [fold_left]; [exact H0|].
  apply IH. destruct (step_appends B s e) as (ms & -> & F). apply Forall_app. auto.
Qed.

Lemma count_detected_app (a b : list Message) :
  count_detected (a ++ b) = (count_detected a + count_detected b)%nat.
Proof. unfold count_detected. rewrite List.filter_app, length_app. reflexivity. Qed.

Lemma count_detected_transcript (B : Browser) (st : Storage) (vid : string) :
  count_detected (fst (play_transcript B st vid)) = 0%nat.
Proof.
  pose proof (play_transcript_msgs B st vid) as H. unfold count_detected.
  induction (fst (play_transcript B st vid)) as [|x l IH]; [reflexivity|].
  apply Forall_cons in H as [[Hx _] Hl]. cbn. rewrite Hx. exact (IH Hl).
Qed.

Lemma dispatch_play (B : Browser) (v : nat) (ct dur : PrimFloat.float) (m : VideoMetadata)
  (ls : list (nat * bool)) (sh : Shared) :
  getVideoMetadataForElement B ct dur = Some m ->
  count_detected (sh_outbox (snd (dispatch B EvPlay v ct dur ls sh)))
    = (count_detected (sh_outbox sh) + count_occ Nat.eq_dec (map fst ls) v)%nat /\
  (forall f, In (v, f) (fst (dispatch B EvPlay v ct dur ls sh)) -> f = true).
Proof.
  intros Hm. revert sh. induction ls as [|[w f] ls IH]; intros sh.
  - cbn. split; [lia | intros f []].
  - cbn [dispatch map fst]. destruct (Nat.eqb_spec w v) as [->|Hne].
    + rewrite count_occ_cons_eq by reflexivity. cbn [handle]. rewrite Hm.
      pose proof (count_detected_transcript B (sh_storage sh) (md_videoId m)) as Hc.
      destruct (play_transcript B (sh_storage sh) (md_videoId m)) as [msgs st'].
      cbn in Hc. cbv beta iota.
      destruct (IH (mkShared (sh_tracked sh) st' (sh_outbox sh ++ VideoDetected m :: msgs)))
        as [H1 H2].
      destruct (dispatch B EvPlay v ct dur ls _) as [ls'' sh2].
      cbn [fst snd sh_outbox] in H1, H2 |- *.
      rewrite H1, count_detected_app. unfold count_detected in Hc |- *. cbn [List.filter is_detected length].
      rewrite Hc. split; [lia|]. intros f' [E|E]; [congruence|exact (H2 f' E)].
    + rewrite count_occ_cons_neq by exact Hne. cbv beta iota. destruct (IH sh) as [H1 H2].
      destruct (dispatch B EvPlay v ct dur ls sh) as [ls'' sh2]. cbn in H1, H2 |- *.
      split; [exact H1|].
      intros f' [E|E]; [congruence|exact (H2 f' E)].
Qed.

(** X9: A [play] event on a video, when the page yields metadata, sends one
    [VIDEO_DETECTED] per [setupVideoTracking] call made for that video (one
    per listener set attached to it), and leaves all of them tracking. *)
Theorem play_detected_per_listener (B : Browser) (v : nat) (ct dur : PrimFloat.float)
  (s : CSState) (m : VideoMetadata) (Hm : getVideoMetadataForElement B ct dur = Some m) :
  count_detected (outbox (fire B EvPlay v ct dur s))
    = (count_detected (outbox s) + listener_count v s)%nat /\
  (forall f, In (v, f) (listeners (fire B EvPlay v ct dur s)) -> f = true).
Proof.
  unfold fire, listener_count.
  destruct (dispatch_play B v ct dur m (listeners s)
              (mkShared (trackedVideos s) (storage s) (outbox s)) Hm) as [H1 H2].
  destruct (dispatch B EvPlay v ct dur _ _) as [ls sh]. cbn in H1, H2 |- *. auto.
Qed.

Lemma play_detected_per_listener_witness :
  getVideoMetadataForElement sample_page 0 0 = Some sample_metadata /\
  count_detected (outbox (fire sample_page EvPlay 1 0 0 sample_rediscovered))
    = (count_detected (outbox sample_rediscovered) + listener_count 1 sample_rediscovered)%nat /\
  (forall f, In (1%nat, f) (listeners (fire sample_page EvPlay 1 0 0 sample_rediscovered)) -> f = true).
Proof.
  assert (H : getVideoMetadataForElement sample_page 0 0 = Some sample_metadata) by reflexivity.
  split; [exact H | apply (play_detected_per_listener sample_page 1 0 0 sample_rediscovered _ H)].
Defined.

Lemma existsb_In (a : nat) (l : list nat) : existsb (Nat.eqb a) l = true <-> In a l.
Proof.
  rewrite existsb_exists. split.
  - intros (x & Hx & E). apply Nat.eqb_eq in E. subst x. exact Hx.
  - intros H. exists a. split; [exact H | apply Nat.eqb_refl].
Qed.

Lemma remove_video_In (v w : nat) (l : list nat) :
  In w (remove_video v l) <-> In w l /\ w <> v.
Proof.
  unfold remove_video. rewrite filter_In. destruct (Nat.eqb_spec w v); cbn; intuition congruence.
Qed.

Lemma dispatch_ended (B : Browser) (v : nat) (ct dur : PrimFloat.float) (m : VideoMetadata)
  (ls : list (nat * bool)) (sh : Shared) :
  getVideoMetadataForElement B ct dur = Some m ->
  (forall f, In (v, f) (fst (dispatch B EvEnded v ct dur ls sh)) -> f = false) /\
  (In (v, true) ls \/ ~ In v (sh_tracked sh) ->
   ~ In v (sh_tracked (snd (dispatch B EvEnded v ct dur ls sh)))).
Proof.
  intros Hm. revert sh. induction ls as [|[w f] ls IH]; intros sh.
  - cbn. split; [intros f []|]. intros [[]|H]; exact H.
  - cbn [dispatch]. destruct (Nat.eqb_spec w v) as [->|Hne].
    + destruct f; cbn [handle]; [rewrite Hm|]; cbv beta iota.
      * destruct (IH (mkShared (remove_video v (sh_tracked sh)) (sh_storage sh)
                        (sh_outbox sh ++ [VideoStopped (md_videoId m)]))) as [H1 H2].
        destruct (dispatch B EvEnded v ct dur ls _) as [ls'' sh2]. cbn [fst snd sh_tracked] in H1, H2 |- *.
        split; [intros f [E|E]; [congruence|exact (H1 f E)]|].
        intros _. apply H2. right. rewrite remove_video_In. tauto.
      * destruct (IH sh) as [H1 H2].
        destruct (dispatch B EvEnded v ct dur ls sh) as [ls'' sh2]. cbn [fst snd] in H1, H2 |- *.
        split; [intros f [E|E]; [congruence|exact (H1 f E)]|].
        intros [[E|E]|E]; [congruence| |]; apply H2; tauto.
    + cbv beta iota. destruct (IH sh) as [H1 H2].
      destruct (dispatch B EvEnded v ct dur ls sh) as [ls'' sh2]. cbn [fst snd] in H1, H2 |- *.
      split; [intros f' [E|E]; [congruence|exact (H1 f' E)]|].
      intros [[E|E]|E]; [congruence| |]; apply H2; tauto.
Qed.

Lemma setup_count (a v : nat) (s : CSState) :
  listener_count v (setupVideoTracking a s)
  = (listener_count v s + if Nat.eq_dec a v then 1 else 0)%nat.
Proof.
  unfold listener_count, setupVideoTracking. cbn [listeners].
  rewrite map_app, count_occ_app. cbn [map fst count_occ].
  destruct (Nat.eq_dec a v); reflexivity.
Qed.

Lemma find_count_tracked (videos : list nat) (v : nat) (s : CSState) :
  In v (trackedVideos s) ->
  listener_count v (findAndTrackVideos videos s) = listener_count v s /\
  In v (trackedVideos (findAndTrackVideos videos s)).
Proof.
  unfold findAndTrackVideos. revert s. induction videos as [|a videos IH]; intros s Hv;
    cbn [fold_left]; [auto|].
  destruct (existsb (Nat.eqb a) (trackedVideos s)) eqn:Ea; [apply IH; exact Hv|].
  assert (Hav : a <> v) by (intros ->; apply existsb_In in Hv; congruence).
  destruct (IH (setupVideoTracking a s)) as [H1 H2].
  - cbn. rewrite Ea. apply in_or_app. left. exact Hv.
  - rewrite H1, setup_count. destruct (Nat.eq_dec a v); [contradiction|]. split; [lia|exact H2].
Qed.

Lemma find_count_untracked (videos : list nat) (v : nat) (s : CSState) :
  ~ In v (trackedVideos s) -> In v videos ->
  listener_count v (findAndTrackVideos videos s) = S (listener_count v s).
Proof.
  unfold findAndTrackVideos. revert s. induction videos as [|a videos IH]; intros s Hv Hin;
    [destruct Hin|]. cbn [fold_left].
  destruct (existsb (Nat.eqb a) (trackedVideos s)) eqn:Ea.
  - apply IH; [exact Hv|]. destruct Hin as [<-|Hin]; [|exact Hin].
    apply existsb_In in Ea. contradiction.
  - destruct (Nat.eq_dec a v) as [<-|Hne].
    + destruct (find_count_tracked videos a (setupVideoTracking a s)) as [H1 _].
      { cbn. rewrite Ea. apply in_or_app. right. left. reflexivity. }
      unfold findAndTrackVideos in H1. rewrite H1, setup_count.
      destruct (Nat.eq_dec a a); [lia|contradiction].
    + destruct Hin as [E|Hin]; [contradiction|].
      rewrite IH; [rewrite setup_count; destruct (Nat.eq_dec a v); [contradiction|lia]| |exact Hin].
      cbn. rewrite Ea. rewrite in_app_iff. intros [H|[H|[]]]; [contradiction|congruence].
Qed.

(** X10: An [ended] event on a tracking video, when the page yields metadata,
    removes the video from [trackedVideos] but detaches none of its
    listeners and stops all of them: until the next [play], its
    [timeupdate], [pause] and [ended] events change nothing and send
    nothing.  A later [childList] mutation that finds the video again
    attaches one more listener set, so that the next [play] is reported once
    more per set. *)
Theorem ended_then_rediscovered (B : Browser) (v : nat) (ct dur : PrimFloat.float)
  (s : CSState) (m : VideoMetadata)
  (Hm : getVideoMetadataForElement B ct dur = Some m) (Ht : In (v, true) (listeners s)) :
  ~ In v (trackedVideos (fire B EvEnded v ct dur s)) /\
  listener_count v (fire B EvEnded v ct dur s) = listener_count v s /\
  (forall k ct' dur', k <> EvPlay ->
     fire B k v ct' dur' (fire B EvEnded v ct dur s) = fire B EvEnded v ct dur s) /\
  (forall videos, In v videos ->
     listener_count v (findAndTrackVideos videos (fire B EvEnded v ct dur s))
     = S (listener_count v s)).
Proof.
  pose proof (dispatch_fst B EvEnded v ct dur (listeners s)
                (mkShared (trackedVideos s) (storage s) (outbox s))) as Hf.
  destruct (dispatch_ended B v ct dur m (listeners s)
              (mkShared (trackedVideos s) (storage s) (outbox s)) Hm) as [H1 H2].
  specialize (H2 (or_introl Ht)).
  assert (Hc : listener_count v (fire B EvEnded v ct dur s) = listener_count v s).
  { unfold listener_count, fire.
    destruct (dispatch B EvEnded v ct dur _ _) as [ls sh]. cbn in Hf |- *. rewrite Hf. reflexivity. }
  assert (Hn : ~ In v (trackedVideos (fire B EvEnded v ct dur s))).
  { unfold fire. destruct (dispatch B EvEnded v ct dur _ _) as [ls sh]. exact H2. }
  split; [exact Hn|]. split; [exact Hc|]. split.
  - intros k ct' dur' Hk. apply fire_idle; [exact Hk|].
    unfold fire. destruct (dispatch B EvEnded v ct dur _ _) as [ls sh]. exact H1.
  - intros videos Hin. rewrite find_count_untracked by assumption. rewrite Hc. reflexivity.
Qed.

Lemma ended_then_rediscovered_witness :
  getVideoMetadataForElement sample_page 0 0 = Some sample_metadata /\
  In (1%nat, true) (listeners (run_page sample_page [1%nat] sample_storage
                                 [MediaEvent EvPlay 1 0 0])) /\
  (~ In 1%nat (trackedVideos (fire sample_page EvEnded 1 0 0
       (run_page sample_page [1%nat] sample_storage [MediaEvent EvPlay 1 0 0]))) /\
   listener_count 1 (fire sample_page EvEnded 1 0 0
       (run_page sample_page [1%nat] sample_storage [MediaEvent EvPlay 1 0 0]))
   = listener_count 1 (run_page sample_page [1%nat] sample_storage [MediaEvent EvPlay 1 0 0]) /\
   (forall k ct' dur', k <> EvPlay ->
      fire sample_page k 1 ct' dur' (fire sample_page EvEnded 1 0 0
        (run_page sample_page [1%nat] sample_storage [MediaEvent EvPlay 1 0 0]))
      = fire sample_page EvEnded 1 0 0
          (run_page sample_page [1%nat] sample_storage [MediaEvent EvPlay 1 0 0])) /\
   (forall videos, In 1%nat videos ->
      listener_count 1 (findAndTrackVideos videos (fire sample_page EvEnded 1 0 0
        (run_page sample_page [1%nat] sample_storage [MediaEvent EvPlay 1 0 0])))
      = S (listener_count 1 (run_page sample_page [1%nat] sample_storage
                               [MediaEvent EvPlay 1 0 0])))).
Proof.
  assert (Hm : getVideoMetadataForElement sample_page 0 0 = Some sample_metadata) by reflexivity.
  assert (Ht : In (1%nat, true) (listeners (run_page sample_page [1%nat] sample_storage
                                               [MediaEvent EvPlay 1 0 0])))
    by (vm_compute; left; reflexivity).
  split; [exact Hm|]. split; [exact Ht|].
  apply (ended_then_rediscovered sample_page 1 0 0 _ _ Hm Ht).
Defined.

Lemma find_all_tracked (videos : list nat) (s : CSState) :
  (forall v, In v videos -> In v (trackedVideos s)) -> findAndTrackVideos videos s = s.
Proof.
  unfold findAndTrackVideos. revert s. induction videos as [|a videos IH]; intros s H;
    cbn [fold_left]; [reflexivity|].
  assert (Ea : existsb (Nat.eqb a) (trackedVideos s) = true)
    by (apply existsb_In, H; left; reflexivity).
  rewrite Ea. apply IH. intros v Hv. apply H. right. exact Hv.
Qed.

Lemma find_tracked (videos : list nat) (s : CSState) :
  (forall v, In v videos \/ In v (trackedVideos s) ->
     In v (trackedVideos (findAndTrackVideos videos s))) /\
  (NoDup (trackedVideos s) -> NoDup (trackedVideos (findAndTrackVideos videos s))).
Proof.
  unfold findAndTrackVideos. revert s. induction videos as [|a videos IH]; intros s;
    cbn [fold_left].
  - split; [intros v [[]|H]; exact H | auto].
  - destruct (existsb (Nat.eqb a) (trackedVideos s)) eqn:Ea.
    + destruct (IH s) as [H1 H2]. split; [|exact H2].
      intros v [[<-|Hv]|Hv]; apply H1; [right; apply existsb_In; exact Ea|left; exact Hv|right; exact Hv].
    + destruct (IH (setupVideoTracking a s)) as [H1 H2]. cbn [setupVideoTracking trackedVideos] in H1, H2.
      rewrite Ea in H1, H2. split.
      * intros v [[<-|Hv]|Hv]; apply H1.
        -- right. apply in_or_app. right. left. reflexivity.
        -- left. exact Hv.
        -- right. apply in_or_app. left. exact Hv.
      * intros Hnd. apply H2. apply NoDup_app. split; [exact Hnd|]. split; [|repeat constructor; set_solver].
        intros x Hx Hy. apply list_elem_of_In in Hx. apply list_elem_of_In in Hy.
        destruct Hy as [<-|[]]. apply existsb_In in Hx. congruence.
Qed.

(** X11: [findAndTrackVideos] tracks every video of the page and keeps those
    already tracked; it never records a video twice; and a second call over
    the same videos changes nothing (no listener is attached twice by it). *)
Theorem findAndTrackVideos_tracks (videos : list nat) (s : CSState) :
  (forall v, In v videos \/ In v (trackedVideos s) ->
     In v (trackedVideos (findAndTrackVideos videos s))) /\
  (NoDup (trackedVideos s) -> NoDup (trackedVideos (findAndTrackVideos videos s))) /\
  findAndTrackVideos videos (findAndTrackVideos videos s) = findAndTrackVideos videos s.
Proof.
  destruct (find_tracked videos s) as [H1 H2]. split; [exact H1|]. split; [exact H2|].
  apply find_all_tracked. intros v Hv. apply H1. left. exact Hv.
Qed.




(** X13: A video id that names a property of [Object.prototype] ([constructor],
    [toString], [__proto__], ...) and has no entry of its own in the cache
    is "found" in the cache whenever the read succeeds: the [play] handler
    sends the inherited value as the transcript and neither fetches nor
    stores one (only when the read fails does [getCachedTranscript] answer
    [null] and the handler fetch). *)
Theorem play_transcript_prototype_id (B : Browser) (st : Storage) (vid : string)
  (Hp : In vid object_prototype_props)
  (Hn : default ∅ (transcriptCache st) !! vid = None)
  (Hr : storage_reply st (storage_calls st) = StorageOk) :
  play_transcript B st vid = ([TranscriptFetched (JSInherited vid)], snd (storage_call st)).
Proof.
  unfold play_transcript, play_try. rewrite TranscriptFacts.getCachedTranscript_result, Hr.
  unfold cached_value, js_get. rewrite Hn.
  assert (E : existsb (String.eqb vid) object_prototype_props = true).
  { apply existsb_exists. exists vid. split; [exact Hp | apply String.eqb_refl]. }
  rewrite E. reflexivity.
Qed.

Lemma play_transcript_prototype_id_witness :
  In "constructor"%string object_prototype_props /\
  default ∅ (transcriptCache sample_storage) !! "constructor"%string = None /\
  storage_reply sample_storage (storage_calls sample_storage) = StorageOk /\
  play_transcript sample_page sample_storage "constructor"
    = ([TranscriptFetched (JSInherited "constructor")], snd (storage_call sample_storage)).
Proof.
  assert (Hp : In "constructor"%string object_prototype_props) by (simpl; left; reflexivity).
  assert (Hn : default ∅ (transcriptCache sample_storage) !! "constructor"%string = None)
    by reflexivity.
  assert (Hr : storage_reply sample_storage (storage_calls sample_storage) = StorageOk)
    by reflexivity.
  split; [exact Hp|]. split; [exact Hn|]. split; [exact Hr|].
  exact (play_transcript_prototype_id sample_page sample_storage _ Hp Hn Hr).
Defined.

Lemma handle_tracked (B : Browser) (k : EventKind) (v : nat) (ct dur : PrimFloat.float)
  (f : bool) (sh : Shared) :
  sh_tracked (snd (handle B k v ct dur f sh)) = sh_tracked sh \/
  sh_tracked (snd (handle B k v ct dur f sh)) = remove_video v (sh_tracked sh).
Proof.
  destruct k; cbn [handle].
  - destruct (getVideoMetadataForElement B ct dur) as [m|]; [|left; reflexivity].
    destruct (play_transcript B (sh_storage sh) (md_videoId m)). left. reflexivity.
  - destruct f; [destruct (getVideoMetadataForElement B ct dur)|]; left; reflexivity.
  - destruct f; [destruct (getVideoMetadataForElement B ct dur)|]; left; reflexivity.
  - destruct f; [destruct (getVideoMetadataForElement B ct dur)|]; [right|left|left]; reflexivity.
Qed.

Lemma dispatch_tracked (B : Browser) (k : EventKind) (v : nat) (ct dur : PrimFloat.float)
  (ls : list (nat * bool)) (sh : Shared) :
  (forall w, In w (sh_tracked (snd (dispatch B k v ct dur ls sh))) -> In w (sh_tracked sh)) /\
  (NoDup (sh_tracked sh) -> NoDup (sh_tracked (snd (dispatch B k v ct dur ls sh)))).
Proof.
  revert sh. induction ls as [|[w f] ls IH]; intros sh; [cbn; auto|]. cbn [dispatch].
  assert (H0 : sh_tracked (snd (if Nat.eqb w v then handle B k v ct dur f sh else (f, sh))) = sh_tracked sh \/
               sh_tracked (snd (if Nat.eqb w v then handle B k v ct dur f sh else (f, sh)))
               = remove_video v (sh_tracked sh)).
  { destruct (Nat.eqb w v); [apply handle_tracked|left; reflexivity]. }
  destruct (if Nat.eqb w v then handle B k v ct dur f sh else (f, sh)) as [f' sh1].
  destruct (IH sh1) as [H1 H2].
  destruct (dispatch B k v ct dur ls sh1) as [ls'' sh2]. cbn [fst snd] in H0, H1, H2 |- *.
  destruct H0 as [E|E]; rewrite E in H1, H2.
  - auto.
  - split.
    + intros x Hx. apply H1 in Hx. apply remove_video_In in Hx. tauto.
    + intros Hnd. apply H2. unfold remove_video. apply NoDup_ListNoDup.
      apply List.NoDup_filter. apply NoDup_ListNoDup. exact Hnd.
Qed.

Lemma setup_inv (v : nat) (s : CSState) : tracking_inv s -> tracking_inv (setupVideoTracking v s).
Proof.
  intros [Hnd Hin]. unfold tracking_inv, setupVideoTracking. cbn [trackedVideos listeners].
  rewrite map_app. cbn [map fst].
  destruct (existsb (Nat.eqb v) (trackedVideos s)) eqn:E.
  - split; [exact Hnd|]. intros w Hw. apply in_or_app. left. exact (Hin w Hw).
  - split.
    + apply NoDup_app. split; [exact Hnd|]. split; [|repeat constructor; set_solver].
      intros x Hx Hy. apply list_elem_of_In in Hx. apply list_elem_of_In in Hy.
      destruct Hy as [<-|[]]. apply existsb_In in Hx. congruence.
    + intros w Hw. apply in_app_iff in Hw as [Hw|[<-|[]]]; apply in_or_app; [left; exact (Hin w Hw)|].
      right. left. reflexivity.
Qed.

Lemma find_inv (videos : list nat) (s : CSState) :
  tracking_inv s -> tracking_inv (findAndTrackVideos videos s).
Proof.
  unfold findAndTrackVideos. revert s. induction videos as [|a videos IH]; intros s Hs;
    cbn [fold_left]; [exact Hs|].
  apply IH. destruct (existsb (Nat.eqb a) (trackedVideos s)); [exact Hs|]. apply setup_inv. exact Hs.
Qed.

Lemma step_inv (B : Browser) (s : CSState) (e : PageEvent) :
  tracking_inv s -> tracking_inv (step B s e).
Proof.
  intros [Hnd Hin]. destruct e as [k v ct dur|n videos|v|playing]; cbn [step].
  - unfold fire.
    pose proof (dispatch_fst B k v ct dur (listeners s) (mkShared (trackedVideos s) (storage s) (outbox s))) as Hf.
    destruct (dispatch_tracked B k v ct dur (listeners s) (mkShared (trackedVideos s) (storage s) (outbox s)))
      as [H1 H2].
    destruct (dispatch B k v ct dur _ _) as [ls sh].
    cbn [fst snd sh_tracked listeners trackedVideos] in Hf, H1, H2 |- *.
    unfold tracking_inv. cbn [trackedVideos].
    split; [exact (H2 Hnd)|]. intros w Hw. cbn [listeners]. rewrite Hf. exact (Hin w (H1 w Hw)).
  - destruct (Nat.eqb n 0); [split; assumption|]. apply find_inv. split; assumption.
  - destruct (existsb (Nat.eqb v) (trackedVideos s)); [split; assumption|].
    apply setup_inv. split; assumption.
  - destruct (init_timeout_shape B playing s) as (H1 & H2 & _).
    unfold tracking_inv. rewrite H1, H2. split; assumption.
Qed.

(** X14: Along any run of the content script, [trackedVideos] never holds a
    video twice, and every video it holds has listeners attached. *)
Theorem run_page_tracking_inv (B : Browser) (videos : list nat) (st : Storage)
  (evs : list PageEvent) :
  NoDup (trackedVideos (run_page B videos st evs)) /\
  (forall v, In v (trackedVideos (run_page B videos st evs)) ->
     In v (map fst (listeners (run_page B videos st evs)))).
Proof.
  unfold run_page.
  assert (H0 : tracking_inv (findAndTrackVideos videos (initial_state st))).
  { apply find_inv. split; [constructor | intros v []]. }
  revert H0. generalize (findAndTrackVideos videos (initial_state st)).
  induction evs as [|e evs IH]; intros s H0; cbn [fold_left]; [exact H0|].
  apply IH. apply step_inv. exact H0.
Qed.

Lemma step_listeners (B : Browser) (s : CSState) (e : PageEvent) :
  exists l, map fst (listeners (step B s e)) = map fst (listeners s) ++ l.
Proof.
  destruct e as [k v ct dur|n videos|v|playing]; cbn [step].
  - exists []. rewrite app_nil_r. unfold fire.
    pose proof (dispatch_fst B k v ct dur (listeners s) (mkShared (trackedVideos s) (storage s) (outbox s))) as Hf.
    destruct (dispatch B k v ct dur _ _) as [ls sh]. exact Hf.
  - destruct (Nat.eqb n 0); [exists []; rewrite app_nil_r; reflexivity|].
    destruct (find_shape videos s) as (l & -> & _). rewrite map_app. eexists. reflexivity.
  - destruct (existsb (Nat.eqb v) (trackedVideos s)); [exists []; rewrite app_nil_r; reflexivity|].
    cbn [setupVideoTracking listeners]. rewrite map_app. eexists. reflexivity.
  - destruct (init_timeout_shape B playing s) as (-> & _). exists []. rewrite app_nil_r. reflexivity.
Qed.

(** X15: No listener is ever removed: whatever events follow, the videos with
    listeners attached, in attachment order, are those of before followed by
    new ones, also after an [ended] took the video out of [trackedVideos]. *)
Theorem listeners_never_detached (B : Browser) (s : CSState) (evs : list PageEvent) :
  exists l, map fst (listeners (fold_left (step B) evs s)) = map fst (listeners s) ++ l.
Proof.
  revert s. induction evs as [|e evs IH]; intros s; cbn [fold_left].
  - exists []. rewrite app_nil_r. reflexivity.
  - destruct (IH (step B s e)) as (l2 & E2). destruct (step_listeners B s e) as (l1 & E1).
    exists (l1 ++ l2). rewrite E2, E1, app_assoc. reflexivity.
Qed.

End ContentScriptFacts.
